(** * uliweb.utils.workers: worker processes and their manager

    A shallow embedding of [uliweb/utils/workers.py].  The module keeps a
    roster of [Worker] objects alive, one forked child process per slot:
    inside a child, [Worker.start] drives a bounded loop around the unit of
    work [run]; in the parent, [Manager.run] polls every slot, forks the
    missing ones and signals the ones that use too much memory.

    Everything the operating system or the unit of work decides is supplied
    by an explicit environment (a "world"); everything the module itself
    does is written out as a function of that world, and every effect
    (log line, sleep, alarm, fork, kill) is appended to a trace. *)

From Stdlib Require Import ZArith QArith List Bool String Lia.
From stdpp Require Import base option list sorting gmap.
Import ListNotations.

Local Close Scope Q_scope.
Local Open Scope Z_scope.

(** ** Python values shared by both classes *)

(** The exceptions that occur in the module.  [UserError] stands for any
    [Exception] subclass raised by a unit of work; [SystemExit] and
    [KeyboardInterrupt] derive from [BaseException] only. *)
Inductive PyExc :=
  | TimeoutException
  | AttributeError
  | TypeError
  | ValueError
  | OverflowError
  | OSError
  | ChildProcessError
  | PermissionError
  | ProcessLookupError
  | NoSuchProcess
  | UserError
  | SystemExit (code : Z)
  | KeyboardInterrupt.

(** [isinstance(e, Exception)] *)
Definition is_Exception (e : PyExc) : bool :=
  match e with
  | SystemExit _ | KeyboardInterrupt => false
  | _ => true
  end.

(** [isinstance(e, TimeoutException)] *)
Definition is_TimeoutException (e : PyExc) : bool :=
  match e with
  | TimeoutException => true
  | _ => false
  end.

(** Truth value of an optional number: [None] and [0] are falsy. *)
Definition truthy (o : option Z) : bool :=
  match o with
  | Some z => negb (z =? 0)
  | None => false
  end.

(** The number behind a truthy optional. *)
Definition value (o : option Z) : Z := default 0 o.

Inductive Signal := SIGINT | SIGTERM | SIGKILL.

(** [default_log = logging.getLogger(__name__)] *)
Definition default_log : string := "uliweb.utils.workers".

(** The lines the module logs, by format string. *)
Inductive LogMsg :=
  | Creating                         (* '%s %d creating' *)
  | ReceivedSignal                   (* '... received a signal %d' *)
  | CancelledBySignal                (* '%s %d cancelled by signal.' *)
  | CancelledByTimeout (sec : Z)     (* '... cancelled by reaching timeout %ds' *)
  | CancelledByMaxRequests (n : Z)   (* '... cancelled by reaching max requests count [%d]' *)
  | LogException (e : PyExc)         (* log.exception(e) *)
  | LogInfoException (e : PyExc)     (* log.info(e) *)
  | NoWorkers                        (* 'No workers need to run.' *)
  | NotExisted (pid : positive)      (* '%s %d is not existed any more.' *)
  | ReachesHard (pid : positive)     (* '... reaches hard memory limit %dM will be killed.' *)
  | ReachesSoft (pid : positive)     (* '... reaches soft memory limit %dM will be cannelled.' *)
  | Starting                         (* the banner of Manager.init *)
  | MainQuit                         (* 'Main process %s quit.' *)
  | CtrlC.                           (* 'Main process %d received Ctrl+C, quit' *)

(** Observable effects, in the order they happen. *)
Inductive Event :=
  | EvLog (m : LogMsg)
  | EvRun                            (* one invocation of self.run() *)
  | EvAlarm (sec : Z)                (* signal.alarm(sec) *)
  | EvSleep (sec : Z)                (* time.sleep(sec) *)
  | EvFork                           (* os.fork() returned in the parent *)
  | EvKill (pid : positive) (sig : Signal).  (* os.kill(pid, sig) *)

Definition is_run (e : Event) : bool :=
  match e with EvRun => true | _ => false end.

Definition is_sleep (e : Event) : bool :=
  match e with EvSleep _ => true | _ => false end.

Definition is_log_exception (e : Event) : bool :=
  match e with EvLog (LogException _) => true | _ => false end.

(** How often an effect of some kind occurs in a trace. *)
Definition occurrences (kind : Event -> bool) (tr : list Event) : nat :=
  length (List.filter kind tr).

(** ** time.sleep

    [time.sleep(sec)] raises ValueError for a negative length and
    OverflowError for one that does not fit the interpreter's 64-bit
    count of nanoseconds; otherwise it sleeps. *)
Definition time_sleep (sec : Z) : list Event + PyExc :=
  if sec <? 0 then inr ValueError
  else if 9223372036 <? sec then inr OverflowError
  else inl [EvSleep sec].

(** ** class Timeout *)
Module Timeout.

(** [signal.alarm] takes a C int. *)
Definition fits_int (sec : Z) : bool :=
  (-2147483648 <=? sec) && (sec <? 2147483648).

(** [alarm(2)] takes that int as an unsigned one: the number of seconds
    the alarm is armed for. *)
Definition seconds (sec : Z) : Z := sec mod 4294967296.

(** [__enter__]: install the SIGALRM handler and arm the alarm;
    [signal.alarm] raises OverflowError for a number outside the C ints. *)
Definition __enter__ (sec : Z) : list Event + PyExc :=
  if fits_int sec then inl [EvAlarm sec] else inr OverflowError.

(** [__exit__]: disable the alarm; returns None, so nothing is swallowed. *)
Definition __exit__ : list Event := [EvAlarm 0].

(** Whether the alarm armed with [sec] fires during a call that lasts
    [duration] seconds (a call of exactly the armed length is taken to
    return before the alarm). *)
Definition fires (sec duration : Z) : bool := seconds sec <? duration.

End Timeout.

(** ** class Worker *)
Module Worker.

(** The values [self.is_exit] takes besides [None]. *)
Inductive ExitFlag := signal | timeout_flag.

Record t := mk {
  log : string;                    (* the logger, by name *)
  max_requests : option Z;
  soft_memory_limit : Q;
  hard_memory_limit : Q;
  timeout : option Z;
  check_point : option Z;
  name : string * nat;             (* "%s-%d" % (name or 'Process', _id) *)
  is_exit : option ExitFlag;
  count : Z
}.

Definition set_is_exit (self : t) (v : option ExitFlag) : t :=
  mk (log self) (max_requests self) (soft_memory_limit self)
     (hard_memory_limit self) (timeout self) (check_point self) (name self)
     v (count self).

Definition set_count (self : t) (v : Z) : t :=
  mk (log self) (max_requests self) (soft_memory_limit self)
     (hard_memory_limit self) (timeout self) (check_point self) (name self)
     (is_exit self) v.

(** [__init__]: [_id] is the class-wide counter; the new counter value is
    returned next to the object. *)
Definition __init__ (_id : nat) (log : option string)
    (max_requests : option Z) (soft_memory_limit hard_memory_limit : Q)
    (timeout check_point : option Z) (name : option string) : t * nat :=
  (mk (default default_log log) max_requests soft_memory_limit
      hard_memory_limit timeout check_point
      (default "Process"%string name, _id) None 0,
   S _id).

(** What one invocation of the unit of work does by itself. *)
Inductive Outcome :=
  | Returns (truthy_ret : bool)
  | Raises (e : PyExc).

(** One loop pass as the environment sees it: the behaviour of [run], how
    long it takes, and whether SIGINT or SIGTERM is delivered (and the
    handler runs) while the pass is under way. *)
Record Pass := {
  outcome : Outcome;
  duration : Z;
  signalled : bool
}.

(** The environment of one worker process: a signal may arrive between
    the installation of the handlers and the first loop test. *)
Record World := {
  pre_signal : bool;
  passes : nat -> Pass
}.

(** How a piece of code ends. *)
Inductive Exit :=
  | Returned (self : t) (tr : list Event)
  | Propagated (e : PyExc) (self : t) (tr : list Event).

Inductive Step :=
  | Continue (self : t) (tr : list Event)
  | Return (self : t) (tr : list Event)
  | Propagate (e : PyExc) (self : t) (tr : list Event).

Definition signal_handler (self : t) (tr : list Event) : t * list Event :=
  (set_is_exit self (Some signal), tr ++ [EvLog ReceivedSignal]).

Definition init (self : t) (tr : list Event) : list Event :=
  tr ++ [EvLog Creating].

(** The loop test of [_run]. *)
Definition loop_cond (self : t) : bool :=
  (negb (truthy (max_requests self))
   || (truthy (max_requests self) && (count self <? value (max_requests self))))
  && negb (bool_decide (is_Some (is_exit self))).

(** The handler of a signal that arrives during pass [p] runs. *)
Definition hears (p : Pass) (self : t) (tr : list Event) : t * list Event :=
  if signalled p then signal_handler self tr else (self, tr).

(** The statement [ret = self.run()] of the [try] block, under
    [with Timeout(self.timeout)] when a timeout is set: what it yields,
    the worker and the trace after it.  When the alarm cannot be armed,
    [run] is not called. *)
Definition call (self : t) (p : Pass) (tr : list Event)
    : Outcome * t * list Event :=
  if truthy (timeout self) then
    let sec := value (timeout self) in
    match Timeout.__enter__ sec with
    | inl evs =>
        let '(self, tr) := hears p self (tr ++ evs ++ [EvRun]) in
        (if Timeout.fires sec (duration p) then Raises TimeoutException
         else outcome p,
         self, tr ++ Timeout.__exit__)
    | inr e =>
        let '(self, tr) := hears p self tr in (Raises e, self, tr)
    end
  else
    let '(self, tr) := hears p self (tr ++ [EvRun]) in (outcome p, self, tr).

(** The [except] clauses of the loop body. *)
Definition handle (e : PyExc) (self : t) (tr : list Event) : Step :=
  if is_TimeoutException e then
    Return (set_is_exit self (Some timeout_flag)) tr
  else if is_Exception e then
    Continue self (tr ++ [EvLog (LogException e)])
  else Propagate e self tr.

(** The body of the [while] loop of [_run]. *)
Definition body (self : t) (p : Pass) (tr : list Event) : Step :=
  match call self p tr with
  | (Returns ret, self, tr) =>
      let self := if ret then set_count self (count self + 1) else self in
      if truthy (check_point self) then
        match time_sleep (value (check_point self)) with
        | inl evs => Continue self (tr ++ evs)
        | inr e => handle e self tr
        end
      else Continue self tr
  | (Raises e, self, tr) => handle e self tr
  end.

(** The state after [n] complete passes from pass number [k] on, when
    the loop gets that far. *)
Fixpoint passes_done (n : nat) (env : nat -> Pass) (k : nat) (self : t)
    (tr : list Event) : option (t * list Event) :=
  match n with
  | O => Some (self, tr)
  | S n' =>
      if loop_cond self then
        match body self (env k) tr with
        | Continue self' tr' => passes_done n' env (S k) self' tr'
        | _ => None
        end
      else None
  end.

(** [_run], started at pass number [k]; [fuel] bounds the number of loop
    tests, [None] means the loop is still running when it is used up. *)
Fixpoint _run (fuel : nat) (env : nat -> Pass) (k : nat) (self : t)
    (tr : list Event) : option Exit :=
  match fuel with
  | O => None
  | S fuel' =>
      if loop_cond self then
        match body self (env k) tr with
        | Continue self' tr' => _run fuel' env (S k) self' tr'
        | Return self' tr' => Some (Returned self' tr')
        | Propagate e self' tr' => Some (Propagated e self' tr')
        end
      else Some (Returned self tr)
  end.

Definition after_run (self : t) (tr : list Event) : Exit :=
  match is_exit self with
  | Some signal => Returned self (tr ++ [EvLog CancelledBySignal])
  | Some timeout_flag =>
      match timeout self with
      | Some sec => Returned self (tr ++ [EvLog (CancelledByTimeout sec)])
      | None => Propagated TypeError self tr     (* '%ds' % None *)
      end
  | None =>
      match max_requests self with
      | Some n => Returned self (tr ++ [EvLog (CancelledByMaxRequests n)])
      | None => Propagated TypeError self tr     (* '%d' % None *)
      end
  end.

Definition start (fuel : nat) (w : World) (self : t) : option Exit :=
  (* self.pid = os.getpid(); signal.signal(SIGINT/SIGTERM, handler) *)
  let tr := init self [] in
  let '(self, tr) := if pre_signal w then signal_handler self tr else (self, tr) in
  match _run fuel (passes w) 0 self tr with
  | Some (Returned self' tr') => Some (after_run self' tr')
  | other => other
  end.

Definition reached_soft_memory_limit (self : t) (mem : Q) : bool :=
  Qle_bool (soft_memory_limit self) mem.

Definition reached_hard_memory_limit (self : t) (mem : Q) : bool :=
  Qle_bool (hard_memory_limit self) mem.

End Worker.

(** ** The process table, as [os] and [psutil] show it *)
Module OS.

Inductive ProcState :=
  | Running (rss : N)              (* resident set size in bytes *)
  | Zombie (status : Z).           (* exited, not yet waited for *)

Record Proc := {
  child : bool;                    (* a direct child of the caller *)
  state : ProcState
}.

Inductive Res (A : Type) :=
  | Ok (a : A)
  | Raise (e : PyExc).
Arguments Ok {A} a.
Arguments Raise {A} e.

(** [psutil.pid_exists(pid)]: a zombie still has its entry. *)
Definition pid_exists (os : gmap positive Proc) (pid : positive) : bool :=
  bool_decide (is_Some (os !! pid)).

(** [os.waitpid(pid, os.WNOHANG)]: [(0, 0)] while the child runs, the pid
    and status of an exited child (which is then removed from the table),
    ECHILD when [pid] is not an unwaited-for child of the caller. *)
Definition waitpid_nohang (os : gmap positive Proc) (pid : positive)
    : Res (Z * Z) * gmap positive Proc :=
  match os !! pid with
  | Some {| child := true; state := Running _ |} => (Ok (0, 0), os)
  | Some {| child := true; state := Zombie status |} =>
      (Ok (Z.pos pid, status), delete pid os)
  | _ => (Raise ChildProcessError, os)
  end.

(** [os.kill(pid, sig)]: always possible for a child of the caller; for
    another process it is up to the system ([denied]) whether the caller
    may signal it. *)
Definition kill (denied : positive -> bool) (os : gmap positive Proc)
    (pid : positive) : Res unit :=
  match os !! pid with
  | Some {| child := true |} => Ok tt
  | Some {| child := false |} =>
      if denied pid then Raise PermissionError else Ok tt
  | None => Raise ProcessLookupError
  end.

(** [psutil.Process(pid).memory_info().rss] *)
Definition memory_info_rss (os : gmap positive Proc) (pid : positive) : Res N :=
  match os !! pid with
  | Some {| state := Running rss |} => Ok rss
  | Some {| state := Zombie _ |} => Ok 0%N
  | None => Raise NoSuchProcess
  end.

End OS.

(** ** get_memory

    [rss / float(1024*1024)] is exact in binary floating point for every
    [rss] below 2^53, so the quotient is written as a rational. *)
Definition get_memory (os : gmap positive OS.Proc) (pid : positive)
    : OS.Res Q * gmap positive OS.Proc :=
  match OS.waitpid_nohang os pid with
  | (OS.Ok (_pid, status), os') =>
      if _pid =? 0 then
        match OS.memory_info_rss os' pid with
        | OS.Ok rss => (OS.Ok (Qmake (Z.of_N rss) 1048576), os')
        | OS.Raise e => (OS.Raise e, os')
        end
      else (OS.Ok (Qmake 0 1), os')
  | (OS.Raise e, os') => (OS.Raise e, os')
  end.

(** ** class Manager *)
Module Manager.

Record t := mk {
  log : string;
  workers : list Worker.t;
  is_exit : bool;
  check_point : Z;
  title : string;
  wait_time : Z
}.

Definition set_is_exit (self : t) (v : bool) : t :=
  mk (log self) (workers self) v (check_point self) (title self)
     (wait_time self).

(** [__init__]: with an empty roster it logs through the [log] ARGUMENT
    (the attribute is only assigned further down) and calls
    [sys.exit(0)], which raises [SystemExit]. *)
Definition __init__ (workers : list Worker.t) (log : option string)
    (check_point : Z) (title : string) (wait_time : Z)
    : OS.Res t * list Event :=
  match workers with
  | [] =>
      match log with
      | None => (OS.Raise AttributeError, [])        (* None.info(...) *)
      | Some _ => (OS.Raise (SystemExit 0), [EvLog NoWorkers])
      end
  | _ :: _ =>
      (OS.Ok (mk (default default_log log) workers false check_point title
                 wait_time), [])
  end.

(** What [os.fork()] does: it returns the child's pid in the parent (the
    child then shows up in the process table with some resident size),
    returns 0 in the child, or raises. *)
Inductive Fork :=
  | ForkParent (pid : positive) (rss : N)
  | ForkChild
  | ForkError.

(** The environment of the manager process. *)
Record World := {
  fork : nat -> Fork;              (* the n-th call of os.fork() *)
  between : nat -> gmap positive OS.Proc -> gmap positive OS.Proc;
                                   (* the process table changes while the
                                      manager sleeps after pass n *)
  pre_signal : bool;               (* SIGINT/SIGTERM before the first test *)
  signalled : nat -> bool;         (* SIGINT/SIGTERM during pass n *)
  kill_denied : positive -> bool   (* processes, not children of the
                                      manager, that it may not signal *)
}.

(** The local [pids] dict of [run], the process table, the number of
    calls of [os.fork()] so far, and the effects so far. *)
Record State := {
  pids : gmap nat positive;
  os : gmap positive OS.Proc;
  fork_calls : nat;
  trace : list Event
}.

Definition emit (st : State) (evs : list Event) : State :=
  {| pids := pids st; os := os st; fork_calls := fork_calls st;
     trace := trace st ++ evs |}.

Definition set_os (st : State) (os' : gmap positive OS.Proc) : State :=
  {| pids := pids st; os := os'; fork_calls := fork_calls st;
     trace := trace st |}.

Inductive Step :=
  | Next (st : State)
  | InChild (i : nat) (st : State) (* fork returned 0: this is the child
                                      of slot i, which goes on with
                                      worker.start() and sys.exit(0) *)
  | Raised (e : PyExc) (st : State).

Definition kill_child (w : World) (st : State) (pid : positive)
    (sig : Signal) : Step :=
  if OS.pid_exists (os st) pid then
    match OS.kill (kill_denied w) (os st) pid with
    | OS.Ok _ => Next (emit st [EvKill pid sig])
    | OS.Raise e => Raised e st
    end
  else Next st.

(** [except Exception as e: self.log.info(e)] around a step. *)
Definition caught (r : Step) : Step :=
  match r with
  | Raised e st =>
      if is_Exception e then Next (emit st [EvLog (LogInfoException e)])
      else Raised e st
  | other => other
  end.

Definition signal_handler (self : t) (st : State) : t * State :=
  (set_is_exit self true, emit st [EvLog ReceivedSignal]).

(** The [if create:] branch: [os.fork()] is called outside any [try]
    other than the one around the whole loop. *)
Definition create (w : World) (i : nat) (st : State) : Step :=
  let n := fork_calls st in
  let st := {| pids := pids st; os := os st; fork_calls := S n;
               trace := trace st |} in
  match fork w n with
  | ForkParent pid rss =>
      Next {| pids := <[i := pid]> (pids st);
              os := <[pid := {| OS.child := true; OS.state := OS.Running rss |}]> (os st);
              fork_calls := fork_calls st;
              trace := trace st ++ [EvFork] |}
  | ForkChild => InChild i st
  | ForkError => Raised OSError st
  end.

(** The [else:] branch: memory inspection under [try ... except Exception]. *)
Definition inspect (w : World) (worker : Worker.t) (pid : positive)
    (st : State) : Step :=
  caught
    match get_memory (os st) pid with
    | (OS.Ok mem, os') =>
        let st := set_os st os' in
        if Worker.reached_hard_memory_limit worker mem then
          kill_child w (emit st [EvLog (ReachesHard pid)]) pid SIGKILL
        else if Worker.reached_soft_memory_limit worker mem then
          match kill_child w st pid SIGTERM with
          | Next st' => Next (emit st' [EvLog (ReachesSoft pid)])
          | other => other
          end
        else Next st
    | (OS.Raise e, os') => Raised e (set_os st os')
    end.

(** The body of [for i, worker in enumerate(self.workers)].  The flag
    [create] of the source is True exactly where [create] is called here:
    no pid recorded for the slot, or [psutil.pid_exists] says no. *)
Definition slot (w : World) (i : nat) (worker : Worker.t) (st : State) : Step :=
  match pids st !! i with
  | None => create w i st
  | Some pid =>
      if OS.pid_exists (os st) pid then inspect w worker pid st
      else create w i (emit st [EvLog (NotExisted pid)])
  end.

(** [enumerate(l, start)] *)
Fixpoint enumerate_from {A} (start : nat) (l : list A) : list (nat * A) :=
  match l with
  | [] => []
  | x :: l' => (start, x) :: enumerate_from (S start) l'
  end.

Definition enumerate {A} (l : list A) : list (nat * A) := enumerate_from 0 l.

Fixpoint for_slots (w : World) (ws : list (nat * Worker.t)) (st : State) : Step :=
  match ws with
  | [] => Next st
  | (i, worker) :: rest =>
      match slot w i worker st with
      | Next st' => for_slots w rest st'
      | other => other
      end
  end.

(** One supervisory pass: the [for] loop of [run]. *)
Definition pass (w : World) (self : t) (st : State) : Step :=
  for_slots w (enumerate (workers self)) st.

Inductive Exit :=
  | Returned (self : t) (st : State)
  | ChildOf (i : nat) (st : State)
  | Propagated (e : PyExc) (self : t) (st : State).

(** [pids.items()]: a dict yields its items in the order the keys were
    first inserted.  [run] inserts the key of a slot at the slot's first
    successful fork, the first pass visits the slots in order and every
    pass that is followed by another one or by the shutdown has filled all
    of them, so that order is the order of the slot indices. *)
Definition by_slot (a b : nat * positive) : Prop := (a.1 <= b.1)%nat.

#[global] Instance by_slot_dec : RelDecision by_slot :=
  fun a b => Nat.le_dec a.1 b.1.

Definition items (pids : gmap nat positive) : list (nat * positive) :=
  merge_sort by_slot (map_to_list pids).

(** [for i, pid in pids.items(): self.kill_child(pid)] *)
Fixpoint kill_all (w : World) (l : list (nat * positive)) (st : State) : Step :=
  match l with
  | [] => Next st
  | (i, pid) :: rest =>
      match kill_child w st pid SIGTERM with
      | Next st' => kill_all w rest st'
      | other => other
      end
  end.

(** How the [try] statement of [run] ends for an exception raised inside
    it: [except KeyboardInterrupt] logs and lets [run] return, everything
    else leaves [run]. *)
Definition raised (e : PyExc) (self : t) (st : State) : Exit :=
  match e with
  | KeyboardInterrupt => Returned self (emit st [EvLog CtrlC])
  | _ => Propagated e self st
  end.

(** What follows the [while] loop: SIGTERM to every recorded pid, the
    grace period, the farewell line. *)
Definition shutdown (w : World) (self : t) (st : State) : Exit :=
  match kill_all w (items (pids st)) st with
  | Next st' =>
      match time_sleep (wait_time self) with
      | inl evs => Returned self (emit st' (evs ++ [EvLog MainQuit]))
      | inr e => raised e self st'
      end
  | InChild i st' => ChildOf i st'
  | Raised e st' => raised e self st'
  end.

Inductive LoopStep :=
  | Again (self : t) (st : State)
  | Done (r : Exit).

(** One turn of the [while] loop: the pass, the sleep, and the handler of
    a signal that arrived meanwhile. *)
Definition iteration (w : World) (k : nat) (self : t) (st : State) : LoopStep :=
  match pass w self st with
  | Next st' =>
      match time_sleep (check_point self) with
      | inl evs =>
          let st' := set_os (emit st' evs) (between w k (os st')) in
          let '(self', st') :=
            if signalled w k then signal_handler self st' else (self, st') in
          Again self' st'
      | inr e => Done (raised e self st')
      end
  | InChild i st' => Done (ChildOf i st')
  | Raised e st' => Done (raised e self st')
  end.

(** The [while not self.is_exit] loop of [run] from pass [k] on, inside
    [try ... except KeyboardInterrupt], with what follows it. *)
Fixpoint loop (fuel : nat) (w : World) (k : nat) (self : t) (st : State)
    : option Exit :=
  match fuel with
  | O => None
  | S fuel' =>
      if is_exit self then Some (shutdown w self st)
      else
        match iteration w k self st with
        | Again self' st' => loop fuel' w (S k) self' st'
        | Done r => Some r
        end
  end.

(** The manager and the state after [n] complete turns of the loop from
    pass [k] on, when the loop gets that far. *)
Fixpoint after_passes (n : nat) (w : World) (k : nat) (self : t) (st : State)
    : option (t * State) :=
  match n with
  | O => Some (self, st)
  | S n' =>
      if is_exit self then None
      else
        match iteration w k self st with
        | Again self' st' => after_passes n' w (S k) self' st'
        | Done _ => None
        end
  end.

(** [run]: [pids = {}], then the loop. *)
Definition run (fuel : nat) (w : World) (self : t)
    (os0 : gmap positive OS.Proc) (tr : list Event) : option Exit :=
  let st := {| pids := ∅; os := os0; fork_calls := 0; trace := tr |} in
  let '(self, st) :=
    if pre_signal w then signal_handler self st else (self, st) in
  loop fuel w 0 self st.

(** [start]: handlers, banner, [run]; [after_run] does nothing. *)
Definition start (fuel : nat) (w : World) (self : t)
    (os0 : gmap positive OS.Proc) : option Exit :=
  run fuel w self os0 [EvLog Starting].

(** What the forked child does: [worker.start()] under
    [try ... except Exception ... finally: sys.exit(0)]; the result is the
    exit status and the child's trace. *)
Definition child_main (fuel : nat) (cw : Worker.World) (worker : Worker.t)
    : option (Z * list Event) :=
  match Worker.start fuel cw worker with
  | Some (Worker.Returned _ tr) => Some (0, tr)
  | Some (Worker.Propagated e _ tr) =>
      if is_Exception e then Some (0, tr ++ [EvLog (LogException e)])
      else Some (0, tr)
  | None => None
  end.

End Manager.

(** ** Conditions on the environment *)
Section Conditions.
Import Worker.

(** The guard of a worker, if it has one, can be armed and does not cut
    the call of pass [p] short. *)
Definition in_time (self : t) (p : Pass) : Prop :=
  truthy (timeout self) = true ->
  Timeout.fits_int (value (timeout self)) = true
  /\ duration p <= Timeout.seconds (value (timeout self)).

(** The alarm of the worker's guard, if it has one, can be armed. *)
Definition alarm_fits (timeout : option Z) : Prop :=
  truthy timeout = true -> Timeout.fits_int (value timeout) = true.

(** Every pass keeps the configuration, calls the unit of work at most
    once (exactly once, when the alarm can be armed) and counts at most
    the call it made. *)
Definition pass_inv (self : t) (tr : list Event) (self' : t) (tr' : list Event) : Prop :=
  max_requests self' = max_requests self
  /\ timeout self' = timeout self
  /\ check_point self' = check_point self
  /\ count self <= count self'
  /\ count self' - count self
     <= Z.of_nat (occurrences is_run tr') - Z.of_nat (occurrences is_run tr)
  /\ (occurrences is_run tr' <= S (occurrences is_run tr))%nat
  /\ (alarm_fits (timeout self) ->
      occurrences is_run tr' = S (occurrences is_run tr)).

(** The call of pass [p] fails with an ordinary error. *)
Definition fails (p : Pass) : Prop :=
  exists e, outcome p = Raises e
            /\ is_Exception e = true /\ is_TimeoutException e = false.

(** A pass that leaves the loop running: no signal, no alarm, and the
  call returns or fails with an ordinary error. *)
Definition quiet (self : t) (p : Pass) : Prop :=
  signalled p = false /\ in_time self p
  /\ match outcome p with
     | Returns _ => True
     | Raises e => is_Exception e = true /\ is_TimeoutException e = false
     end.


End Conditions.

Section ManagerConditions.
Import Manager.

(** The slot has no pid on record, or the recorded one is gone. *)
Definition needs_spawn (st : State) (i : nat) : Prop :=
  pids st !! i = None
  \/ exists pid, pids st !! i = Some pid /\ OS.pid_exists (os st) pid = false.

End ManagerConditions.

(** ** Sample workers, managers and environments *)

Definition world_returning_true : Worker.World :=
  {| Worker.pre_signal := false;
     Worker.passes := fun _ =>
       {| Worker.outcome := Worker.Returns true; Worker.duration := 1;
          Worker.signalled := false |} |}.

Definition world_slow_calls : Worker.World :=
  {| Worker.pre_signal := false;
     Worker.passes := fun _ =>
       {| Worker.outcome := Worker.Returns true; Worker.duration := 9;
          Worker.signalled := false |} |}.

Definition world_failing_calls : Worker.World :=
  {| Worker.pre_signal := false;
     Worker.passes := fun k =>
       {| Worker.outcome := Worker.Raises UserError; Worker.duration := 1;
          Worker.signalled := (2 <=? k)%nat |} |}.

Definition world_signal_at_pass_3 : Worker.World :=
  {| Worker.pre_signal := false;
     Worker.passes := fun k =>
       {| Worker.outcome := Worker.Returns true; Worker.duration := 1;
          Worker.signalled := (3 <=? k)%nat |} |}.

Definition default_worker : Worker.t :=
  (Worker.__init__ 1 None (Some 2) (Qmake 200 1) (Qmake 300 1) None None None).1.

Definition default_manager : Manager.t :=
  Manager.mk default_log [default_worker] false 1 "Workers Daemon" 3.

(** The first [fork] fails, every later one would succeed; nothing else
    happens. *)
Definition world_first_fork_fails : Manager.World :=
  {| Manager.fork := fun n =>
       match n with O => Manager.ForkError | S _ => Manager.ForkParent 8 0 end;
     Manager.between := fun _ os => os;
     Manager.pre_signal := false;
     Manager.signalled := fun _ => false;
     Manager.kill_denied := fun _ => false |}.

(** One slot, filled by child 7, which is running with 250 MB resident. *)
Definition state_running_child : Manager.State :=
  {| Manager.pids := {[ 0%nat := 7%positive ]};
     Manager.os := {[ 7%positive :=
                       {| OS.child := true; OS.state := OS.Running 262144000 |} ]};
     Manager.fork_calls := 1;
     Manager.trace := [] |}.

(** One slot, whose child 7 has exited and has not been waited for. *)
Definition state_zombie_child : Manager.State :=
  {| Manager.pids := {[ 0%nat := 7%positive ]};
     Manager.os := {[ 7%positive :=
                       {| OS.child := true; OS.state := OS.Zombie 0 |} ]};
     Manager.fork_calls := 1;
     Manager.trace := [] |}.

(** [fork] always succeeds, with pid 8. *)
Definition world_fork_ok : Manager.World :=
  {| Manager.fork := fun _ => Manager.ForkParent 8 0;
     Manager.between := fun _ os => os;
     Manager.pre_signal := false;
     Manager.signalled := fun _ => false;
     Manager.kill_denied := fun _ => false |}.

(** Child 7 has been reaped already; process 9 runs but is nobody's child. *)
Definition table_without_children : gmap positive OS.Proc :=
  {[ 9%positive := {| OS.child := false; OS.state := OS.Running 4194304 |} ]}.

Definition paused_worker : Worker.t :=
  (Worker.__init__ 1 None None (Qmake 200 1) (Qmake 300 1) (Some 5) (Some 2)
     None).1.

(** The first [fork] yields child 8, which is gone from the process table
    by the second pass; the second [fork] fails. *)
Definition world_second_fork_fails : Manager.World :=
  {| Manager.fork := fun n =>
       match n with O => Manager.ForkParent 8 0 | S _ => Manager.ForkError end;
     Manager.between := fun _ os => delete 8%positive os;
     Manager.pre_signal := false;
     Manager.signalled := fun _ => false;
     Manager.kill_denied := fun _ => false |}.

(** ** Reading results and traces *)

(** The worker object and the trace a piece of worker code ends with. *)
Definition exit_self (r : Worker.Exit) : Worker.t :=
  match r with
  | Worker.Returned self _ => self
  | Worker.Propagated _ self _ => self
  end.

Definition exit_trace (r : Worker.Exit) : list Event :=
  match r with
  | Worker.Returned _ tr => tr
  | Worker.Propagated _ _ tr => tr
  end.

Definition step_trace (r : Worker.Step) : list Event :=
  match r with
  | Worker.Continue _ tr => tr
  | Worker.Return _ tr => tr
  | Worker.Propagate _ _ tr => tr
  end.

(** The state a manager step ends in. *)
Definition step_state (r : Manager.Step) : Manager.State :=
  match r with
  | Manager.Next st => st
  | Manager.InChild _ st => st
  | Manager.Raised _ st => st
  end.

(** Follows the alarm through a trace, starting armed or not: [None] when
    an alarm is armed while one is pending or a pause begins while one is
    pending, otherwise whether an alarm is pending at the end. *)
Fixpoint alarm_scan (armed : bool) (tr : list Event) : option bool :=
  match tr with
  | [] => Some armed
  | EvAlarm sec :: tr' =>
      if sec =? 0 then alarm_scan false tr'
      else if armed then None else alarm_scan true tr'
  | EvSleep _ :: tr' => if armed then None else alarm_scan false tr'
  | _ :: tr' => alarm_scan armed tr'
  end.


(** The unit of work calls [sys.exit(3)] on every call. *)
Definition world_sys_exit : Worker.World :=
  {| Worker.pre_signal := false;
     Worker.passes := fun _ =>
       {| Worker.outcome := Worker.Raises (SystemExit 3); Worker.duration := 1;
          Worker.signalled := false |} |}.

(** The unit of work raises TimeoutException by itself. *)
Definition world_raises_timeout : Worker.World :=
  {| Worker.pre_signal := false;
     Worker.passes := fun _ =>
       {| Worker.outcome := Worker.Raises TimeoutException; Worker.duration := 1;
          Worker.signalled := false |} |}.

(** A signal arrives before the first loop test. *)
Definition world_early_signal : Worker.World :=
  {| Worker.pre_signal := true;
     Worker.passes := fun _ =>
       {| Worker.outcome := Worker.Returns true; Worker.duration := 1;
          Worker.signalled := false |} |}.

(** Truthy returns, with a signal during the second pass. *)
Definition world_signal_at_pass_1 : Worker.World :=
  {| Worker.pre_signal := false;
     Worker.passes := fun k =>
       {| Worker.outcome := Worker.Returns true; Worker.duration := 1;
          Worker.signalled := (1 =? k)%nat |} |}.

(** The [n]-th [fork] yields pid [n + 10]; the manager is signalled during
    its first pass. *)
Definition world_forks_then_signal : Manager.World :=
  {| Manager.fork := fun n => Manager.ForkParent (Pos.of_nat (n + 10)) 0;
     Manager.between := fun _ os => os;
     Manager.pre_signal := false;
     Manager.signalled := fun k => (k =? 0)%nat;
     Manager.kill_denied := fun _ => false |}.


(** A worker whose hard limit is below its soft limit. *)
Definition inverted_worker : Worker.t :=
  (Worker.__init__ 1 None (Some 2) (Qmake 300 1) (Qmake 200 1) None None None).1.

(** Two slots: child 7 runs, pid 9 is somebody else's process. *)
Definition state_foreign_pid : Manager.State :=
  {| Manager.pids := {[ 0%nat := 7%positive; 1%nat := 9%positive ]};
     Manager.os := {[ 7%positive :=
                       {| OS.child := true; OS.state := OS.Running 1048576 |};
                     9%positive :=
                       {| OS.child := false; OS.state := OS.Running 4194304 |} ]};
     Manager.fork_calls := 2;
     Manager.trace := [] |}.

(** Two slots: child 7 is on record for the first one and is gone from the
    process table; the second has nothing on record. *)
Definition state_dead_slot : Manager.State :=
  {| Manager.pids := {[ 0%nat := 7%positive ]};
     Manager.os := ∅;
     Manager.fork_calls := 1;
     Manager.trace := [] |}.

(** * Properties *)

(** ** Traces *)

Lemma occurrences_app kind (tr evs : list Event) :
  occurrences kind (tr ++ evs) = (occurrences kind tr + occurrences kind evs)%nat.
Proof. unfold occurrences. by rewrite List.filter_app, length_app. Qed.

Lemma alarm_scan_app tr1 : forall armed tr2,
  alarm_scan armed (tr1 ++ tr2)
  = match alarm_scan armed tr1 with
    | Some armed' => alarm_scan armed' tr2
    | None => None
    end.
Proof.
  induction tr1 as [|e tr1 IH]; intros armed tr2; simpl; [done|].
  destruct e; try apply IH.
  - destruct (sec =? 0); [apply IH|]. destruct armed; [done | apply IH].
  - destruct armed; [done | apply IH].
Qed.

Lemma truthy_value o : truthy o = true -> (value o =? 0) = false.
Proof. destruct o as [z|]; simpl; [|done]. by destruct (z =? 0). Qed.


Lemma time_sleep_cases sec :
  time_sleep sec = inl [EvSleep sec]
  \/ sec < 0 /\ time_sleep sec = inr ValueError
  \/ 9223372036 < sec /\ time_sleep sec = inr OverflowError.
Proof.
  unfold time_sleep.
  destruct (Z.ltb_spec sec 0); [right; left; done|].
  destruct (Z.ltb_spec 9223372036 sec); [right; right; done | by left].
Qed.

(** ** The worker loop *)
Section WorkerLoop.
Import Worker.

(** The worker after a pass has heard its signal, if any. *)
Lemma hears_eq p self tr :
  hears p self tr
  = (if signalled p then set_is_exit self (Some signal) else self,
     tr ++ (if signalled p then [EvLog ReceivedSignal] else [])).
Proof.
  unfold hears, signal_handler. destruct (signalled p); [done|].
  by rewrite app_nil_r.
Qed.

(** What the call of a pass amounts to, in general. *)
Lemma call_inv self p tr :
  exists res evs,
    call self p tr
    = (res, if signalled p then set_is_exit self (Some signal) else self,
       tr ++ evs)
    /\ occurrences is_sleep evs = 0%nat
    /\ occurrences is_log_exception evs = 0%nat
    /\ alarm_scan false evs = Some false
    /\ (truthy (timeout self) = true ->
        Timeout.fits_int (value (timeout self)) = false ->
        res = Raises OverflowError /\ occurrences is_run evs = 0%nat)
    /\ ((truthy (timeout self) = true ->
         Timeout.fits_int (value (timeout self)) = true) ->
        res = (if truthy (timeout self)
                  && Timeout.fires (value (timeout self)) (duration p)
               then Raises TimeoutException else outcome p)
        /\ occurrences is_run evs = 1%nat).
Proof.
  unfold call, Timeout.__enter__, Timeout.__exit__.
  destruct (truthy (timeout self)) eqn:Hg.
  - pose proof (truthy_value _ Hg) as Hv.
    destruct (Timeout.fits_int (value (timeout self))) eqn:Hfit;
      rewrite hears_eq; simpl.
    + eexists _, _. rewrite <- !app_assoc. split; [reflexivity|].
      destruct (signalled p); unfold occurrences; simpl; rewrite Hv;
        (split; [done|]); (split; [done|]); (split; [done|]);
        (split; [intros _ [=] | intros _; done]).
    + eexists _, _. split; [reflexivity|].
      destruct (signalled p); unfold occurrences; simpl;
        (split; [done|]); (split; [done|]); (split; [done|]);
        (split; [intros _ _; done | intros H0; by specialize (H0 eq_refl)]).
  - rewrite hears_eq. eexists _, _. rewrite <- !app_assoc.
    split; [reflexivity|].
    destruct (signalled p); unfold occurrences; simpl;
      (split; [done|]); (split; [done|]); (split; [done|]);
      (split; [intros [=] | intros _; done]).
Qed.

Lemma in_time_fits self p :
  in_time self p ->
  truthy (timeout self) = true ->
  Timeout.fits_int (value (timeout self)) = true.
Proof. intros H Hg. by apply H. Qed.

Lemma in_time_no_timeout self p :
  in_time self p ->
  truthy (timeout self) && Timeout.fires (value (timeout self)) (duration p) = false.
Proof.
  unfold in_time, Timeout.fires. intros H.
  destruct (truthy (timeout self)); [|done].
  simpl. apply Z.ltb_ge. by apply H.
Qed.

(** The call of a pass that is in time. *)
Lemma call_in_time self p tr :
  in_time self p ->
  exists evs,
    call self p tr
    = (outcome p, if signalled p then set_is_exit self (Some signal) else self,
       tr ++ evs)
    /\ occurrences is_sleep evs = 0%nat
    /\ occurrences is_log_exception evs = 0%nat
    /\ occurrences is_run evs = 1%nat.
Proof.
  intros Hi.
  destruct (call_inv self p tr) as (res & evs & Hc & Hs & Hl & _ & _ & Hfit).
  destruct (Hfit (in_time_fits self p Hi)) as (Hres & Hr).
  rewrite (in_time_no_timeout self p Hi) in Hres. subst res.
  by exists evs.
Qed.


(** A pass whose call returns a truthy value in time, with no signal. *)
Lemma body_returns_true self p tr :
  outcome p = Returns true -> signalled p = false -> in_time self p ->
  exists evs,
    body self p tr = Continue (set_count self (count self + 1)) (tr ++ evs)
    /\ occurrences is_run evs = 1%nat.
Proof.
  intros Ho Hs Ht.
  destruct (call_in_time self p tr Ht) as (evs & Hc & _ & _ & Hr).
  unfold body. rewrite Hc, Ho, Hs. cbn [check_point set_count].
  destruct (truthy (check_point self)).
  - destruct (time_sleep_cases (value (check_point self)))
      as [->|[(_ & ->)|(_ & ->)]].
    + exists (evs ++ [EvSleep (value (check_point self))]).
      rewrite app_assoc. split; [done|].
      rewrite occurrences_app, Hr. by unfold occurrences.
    + exists (evs ++ [EvLog (LogException ValueError)]).
      rewrite app_assoc. split; [done|].
      rewrite occurrences_app, Hr. by unfold occurrences.
    + exists (evs ++ [EvLog (LogException OverflowError)]).
      rewrite app_assoc. split; [done|].
      rewrite occurrences_app, Hr. by unfold occurrences.
  - by exists evs.
Qed.

Lemma body_inv self p tr :
  match body self p tr with
  | Continue self' tr' => pass_inv self tr self' tr'
  | Return self' tr' =>
      pass_inv self tr self' tr' /\ count self' = count self
      /\ is_exit self' = Some timeout_flag
  | Propagate e self' tr' => pass_inv self tr self' tr' /\ is_Exception e = false
  end.
Proof.
  unfold body, call, hears, signal_handler, Timeout.__enter__,
    Timeout.__exit__, pass_inv, alarm_fits.
  destruct (truthy (timeout self)) eqn:Hg;
    [destruct (Timeout.fits_int (value (timeout self))) eqn:Hfit;
       [destruct (Timeout.fires (value (timeout self)) (duration p))|]|];
    destruct (signalled p); simpl;
    try (destruct (outcome p) as [[]|e]; simpl);
    unfold handle; simpl;
    try (destruct (is_TimeoutException e) eqn:?, (is_Exception e) eqn:?; simpl);
    try (destruct (truthy (check_point self)); simpl;
         unfold time_sleep;
         try (destruct (value (check_point self) <? 0),
                (9223372036 <? value (check_point self)); simpl));
    rewrite ?occurrences_app; unfold occurrences; simpl;
    repeat split; try lia; try done;
    try (intros H; specialize (H eq_refl); congruence).
Qed.

Lemma loop_cond_bounded self N :
  max_requests self = Some N -> N <> 0 -> is_exit self = None ->
  loop_cond self = (count self <? N).
Proof.
  intros Hm HN He. unfold loop_cond. rewrite Hm, He. simpl.
  destruct (Z.eqb_spec N 0); [done|]. simpl.
  by rewrite andb_true_r.
Qed.

Lemma loop_cond_fresh log mr soft hard to cp nm :
  truthy mr = false \/ 0 < value mr ->
  loop_cond (mk log mr soft hard to cp nm None 0) = true.
Proof.
  intros Hm. unfold loop_cond. simpl. rewrite andb_true_r.
  destruct Hm as [->|Hm]; [done|].
  destruct mr as [m|]; simpl in *; [|lia].
  destruct (Z.eqb_spec m 0); [lia|]. simpl. by apply Z.ltb_lt.
Qed.

Lemma loop_cond_exiting self flag :
  is_exit self = Some flag -> loop_cond self = false.
Proof. intros H. unfold loop_cond. rewrite H. simpl. apply andb_false_r. Qed.

Lemma loop_cond_true_bound self N :
  loop_cond self = true -> max_requests self = Some N -> N <> 0 ->
  count self < N.
Proof.
  unfold loop_cond. intros Hc Hm HN. rewrite Hm in Hc. simpl in Hc.
  destruct (Z.eqb_spec N 0); [done|]. simpl in Hc.
  apply andb_true_iff in Hc as [Hc _]. by apply Z.ltb_lt.
Qed.

(** [_run] picks up where [passes_done] has got to. *)
Lemma passes_done_run n : forall env k self tr self' tr' fuel,
  passes_done n env k self tr = Some (self', tr') ->
  _run (n + fuel) env k self tr = _run fuel env (k + n) self' tr'.
Proof.
  induction n as [|n IH]; intros env k self tr self' tr' fuel; simpl.
  - intros [= <- <-]. by rewrite Nat.add_0_r.
  - destruct (loop_cond self); [|done].
    destruct (body self (env k) tr) as [s1 t1| |]; [|done..].
    intros H. rewrite (IH _ _ _ _ _ _ fuel H).
    by replace (S k + n)%nat with (k + S n)%nat by lia.
Qed.

(** While [passes_done] gets on, [_run] has not ended. *)
Lemma passes_done_running n : forall env k self tr self' tr',
  passes_done n env k self tr = Some (self', tr') ->
  _run n env k self tr = None.
Proof.
  induction n as [|n IH]; intros env k self tr self' tr'; simpl; [done|].
  destruct (loop_cond self); [|done].
  destruct (body self (env k) tr) as [s1 t1| |]; [|done..].
  apply IH.
Qed.

(** With [n] more good passes to go before the bound, the loop makes
    exactly those [n] passes and falls out of the loop test. *)
Lemma _run_reaches_bound n : forall env k self tr N fuel,
  max_requests self = Some N -> 0 < N -> is_exit self = None ->
  count self + Z.of_nat n = N ->
  (forall j, (j < n)%nat ->
     outcome (env (k + j)%nat) = Returns true
     /\ signalled (env (k + j)%nat) = false
     /\ in_time self (env (k + j)%nat)) ->
  (n < fuel)%nat ->
  exists self' evs,
    _run fuel env k self tr = Some (Returned self' (tr ++ evs))
    /\ count self' = N /\ is_exit self' = None
    /\ max_requests self' = Some N
    /\ occurrences is_run evs = n.
Proof.
  induction n as [|n IH]; intros env k self tr N fuel Hm HN He Hc Hgood Hf;
    (destruct fuel as [|fuel]; [lia|]); simpl;
    rewrite (loop_cond_bounded self N) by (assumption || lia).
  - replace (count self <? N) with false by (symmetry; apply Z.ltb_ge; lia).
    exists self, []. rewrite app_nil_r. repeat split; try done. lia.
  - replace (count self <? N) with true by (symmetry; apply Z.ltb_lt; lia).
    destruct (Hgood 0%nat ltac:(lia)) as (Ho & Hs & Ht).
    rewrite Nat.add_0_r in Ho, Hs, Ht.
    destruct (body_returns_true self (env k) tr Ho Hs Ht) as (evs0 & -> & Hr0).
    destruct (IH env (S k) (set_count self (count self + 1)) (tr ++ evs0) N fuel)
      as (self' & evs & Hrun & Hc' & He' & Hm' & Hr); try done.
    + simpl. lia.
    + intros j Hj. specialize (Hgood (S j) ltac:(lia)).
      by replace (k + S j)%nat with (S k + j)%nat in Hgood by lia.
    + lia.
    + exists self', (evs0 ++ evs). rewrite app_assoc. repeat split; try done.
      rewrite occurrences_app. lia.
Qed.

(** Whenever [_run] returns, its loop test is false. *)
Lemma _run_returned_stops fuel : forall env k self tr self' tr',
  _run fuel env k self tr = Some (Returned self' tr') ->
  loop_cond self' = false.
Proof.
  induction fuel as [|fuel IH]; intros env k self tr self' tr'; simpl; [done|].
  destruct (loop_cond self) eqn:Hc.
  - pose proof (body_inv self (env k) tr) as Hb.
    destruct (body self (env k) tr) as [s1 t1|s1 t1|e s1 t1]; [by eauto| |done].
    intros [= <- <-]. destruct Hb as (_ & _ & He).
    by apply (loop_cond_exiting _ timeout_flag).
  - by intros [= <- <-].
Qed.

(** [_run] keeps the configuration and only ever adds invocations; it
    adds one when it enters the loop at all and the alarm can be armed. *)
Lemma _run_calls fuel : forall env k self tr self' tr',
  _run fuel env k self tr = Some (Returned self' tr') ->
  max_requests self' = max_requests self
  /\ timeout self' = timeout self
  /\ (occurrences is_run tr <= occurrences is_run tr')%nat
  /\ (loop_cond self = true -> alarm_fits (timeout self) ->
      (occurrences is_run tr < occurrences is_run tr')%nat).
Proof.
  induction fuel as [|fuel IH]; intros env k self tr self' tr'; simpl; [done|].
  destruct (loop_cond self) eqn:Hc.
  - pose proof (body_inv self (env k) tr) as Hb.
    destruct (body self (env k) tr) as [s1 t1|s1 t1|e s1 t1]; [| |done].
    + intros Hr. apply IH in Hr as (Hm & Ht & Hle & _).
      destruct Hb as (Hm1 & Ht1 & _ & Hcle & Hn & _ & Hfit).
      split; [congruence|]. split; [congruence|]. split; [lia|].
      intros _ Hf. specialize (Hfit Hf). lia.
    + intros [= <- <-]. destruct Hb as ((Hm1 & Ht1 & _ & Hcle & Hn & _ & Hfit) & _).
      split; [done|]. split; [done|]. split; [lia|].
      intros _ Hf. specialize (Hfit Hf). lia.
  - intros [= <- <-]. split; [done|]. split; [done|]. split; [lia|done].
Qed.

(** A failing pass that is neither signalled nor cut short: the error is
    logged, nothing else changes, and there is no pause. *)
Lemma body_fails self p tr e :
  outcome p = Raises e -> is_Exception e = true ->
  is_TimeoutException e = false ->
  signalled p = false -> in_time self p ->
  exists evs,
    body self p tr = Continue self (tr ++ evs ++ [EvLog (LogException e)])
    /\ occurrences is_run evs = 1%nat
    /\ occurrences is_log_exception evs = 0%nat
    /\ occurrences is_sleep evs = 0%nat.
Proof.
  intros Ho He Ht Hs Hi.
  destruct (call_in_time self p tr Hi) as (evs & Hc & Hsl & Hl & Hr).
  unfold body. rewrite Hc, Ho, Hs. unfold handle. rewrite Ht, He.
  exists evs. by rewrite <- app_assoc.
Qed.

(** A failing pass never counts and never lets the error out. *)
Lemma body_fails_any self p tr :
  fails p ->
  match body self p tr with
  | Continue self' _ =>
      count self' = count self
      /\ (is_exit self' = is_exit self \/ is_exit self' = Some signal)
  | Return self' _ =>
      count self' = count self /\ truthy (timeout self) = true
  | Propagate _ _ _ => False
  end.
Proof.
  intros (e & Ho & He & Ht).
  unfold body, call, hears, signal_handler, Timeout.__enter__, handle.
  rewrite Ho.
  destruct (truthy (timeout self)),
    (Timeout.fits_int (value (timeout self))), (signalled p),
    (Timeout.fires (value (timeout self)) (duration p));
    simpl; rewrite ?Ht, ?He; auto.
Qed.

Lemma _run_fails fuel : forall env k self tr r,
  (forall j, fails (env j)) ->
  is_exit self <> Some timeout_flag ->
  _run fuel env k self tr = Some r ->
  exists self' tr',
    r = Returned self' tr' /\ count self' = count self
    /\ max_requests self' = max_requests self
    /\ timeout self' = timeout self
    /\ loop_cond self' = false
    /\ (is_exit self' = Some timeout_flag -> truthy (timeout self) = true).
Proof.
  induction fuel as [|fuel IH]; intros env k self tr r Hf Hne; simpl; [done|].
  destruct (loop_cond self) eqn:Hc.
  - pose proof (body_inv self (env k) tr) as Hb.
    pose proof (body_fails_any self (env k) tr (Hf k)) as Hb'.
    destruct (body self (env k) tr) as [s1 t1|s1 t1|e s1 t1]; [| |done].
    + intros Hr. destruct Hb as (Hm & Ht & _). destruct Hb' as (Hcnt & He).
      apply IH in Hr as (self' & tr' & -> & ? & ? & ? & ? & Hto); [|done|].
      * exists self', tr'. repeat split; try congruence.
        intros Hx. rewrite <- Ht. by apply Hto.
      * destruct He as [He|He]; rewrite He; [done|congruence].
    + intros [= <-]. destruct Hb as ((Hm & Ht & _) & _ & He).
      destruct Hb' as (Hcnt & Hg).
      exists s1, t1. repeat split; try done.
      by apply (loop_cond_exiting _ timeout_flag).
  - intros [= <-]. exists self, tr. repeat split; done.
Qed.

(** As long as every pass fails quietly, the loop neither moves nor ends. *)
Lemma _run_fails_quietly n : forall env k self tr,
  loop_cond self = true ->
  (forall j, fails (env j)) ->
  (forall j, (j < n)%nat ->
     signalled (env (k + j)%nat) = false /\ in_time self (env (k + j)%nat)) ->
  _run n env k self tr = None
  /\ exists evs,
       passes_done n env k self tr = Some (self, tr ++ evs)
       /\ occurrences is_run evs = n
       /\ occurrences is_log_exception evs = n
       /\ occurrences is_sleep evs = 0%nat.
Proof.
  induction n as [|n IH]; intros env k self tr Hc Hf Hq; simpl.
  - split; [done|]. exists []. by rewrite app_nil_r.
  - rewrite Hc. destruct (Hf k) as (e & Ho & He & Ht).
    destruct (Hq 0%nat ltac:(lia)) as (Hs & Hi). rewrite Nat.add_0_r in Hs, Hi.
    destruct (body_fails self (env k) tr e Ho He Ht Hs Hi)
      as (evs0 & -> & Hr0 & Hl0 & Hp0).
    destruct (IH env (S k) self (tr ++ evs0 ++ [EvLog (LogException e)]) Hc Hf)
      as (Hnone & evs & Hdone & Hr & Hl & Hp).
    { intros j Hj. specialize (Hq (S j) ltac:(lia)).
      by replace (k + S j)%nat with (S k + j)%nat in Hq by lia. }
    split; [done|].
    exists ((evs0 ++ [EvLog (LogException e)]) ++ evs).
    rewrite Hdone, <- !app_assoc. split; [done|].
    rewrite !occurrences_app, Hr0, Hl0, Hp0, Hr, Hl, Hp.
    unfold occurrences. simpl. repeat split; lia.
Qed.

Lemma body_quiet self p tr :
  quiet self p ->
  exists self' evs,
    body self p tr = Continue self' (tr ++ evs)
    /\ is_exit self' = is_exit self
    /\ max_requests self' = max_requests self
    /\ timeout self' = timeout self
    /\ occurrences is_run evs = 1%nat.
Proof.
  intros (Hs & Hi & Ho).
  destruct (call_in_time self p tr Hi) as (evs & Hc & _ & _ & Hr).
  unfold body. rewrite Hc, Hs.
  destruct (outcome p) as [ret|e].
  - assert (Hx : forall s : t,
              check_point (if ret then set_count s (count s + 1) else s)
              = check_point s) by (intros s; by destruct ret).
    rewrite Hx.
    destruct (truthy (check_point self)).
    + destruct (time_sleep_cases (value (check_point self)))
        as [->|[(_ & ->)|(_ & ->)]]; unfold handle; simpl;
        rewrite <- ?app_assoc; eexists _, _; (split; [reflexivity|]);
        rewrite occurrences_app, Hr; unfold occurrences; simpl;
        destruct ret; repeat split; lia.
    + eexists _, _. split; [reflexivity|]. by destruct ret.
  - destruct Ho as [He Ht]. unfold handle. rewrite Ht, He.
    rewrite <- app_assoc. eexists _, _. split; [reflexivity|].
    rewrite occurrences_app, Hr. unfold occurrences. simpl.
    repeat split; lia.
Qed.

(** Quiet passes of a worker without a bound all get made. *)
Lemma passes_quiet n : forall env k self tr,
  truthy (max_requests self) = false -> is_exit self = None ->
  (forall j, (j < n)%nat -> quiet self (env (k + j)%nat)) ->
  exists self' evs,
    passes_done n env k self tr = Some (self', tr ++ evs)
    /\ is_exit self' = None
    /\ max_requests self' = max_requests self
    /\ timeout self' = timeout self
    /\ occurrences is_run evs = n.
Proof.
  induction n as [|n IH]; intros env k self tr Hm He Hq; simpl.
  - exists self, []. by rewrite app_nil_r.
  - unfold loop_cond. rewrite Hm, He. simpl.
    pose proof (Hq 0%nat ltac:(lia)) as Hq0. rewrite Nat.add_0_r in Hq0.
    destruct (body_quiet self (env k) tr Hq0)
      as (s1 & evs1 & -> & He1 & Hm1 & Ht1 & Hr1).
    destruct (IH env (S k) s1 (tr ++ evs1)) as (s2 & evs2 & Hd & He2 & Hm2 & Ht2 & Hr2);
      [congruence | congruence | |].
    { intros j Hj. specialize (Hq (S j) ltac:(lia)).
      replace (k + S j)%nat with (S k + j)%nat in Hq by lia.
      unfold quiet, in_time in *. by rewrite Ht1. }
    exists s2, (evs1 ++ evs2). rewrite app_assoc. split; [done|].
    rewrite occurrences_app. repeat split; try congruence. lia.
Qed.

(** Without a bound, quiet passes never end the loop. *)
Lemma _run_unbounded n : forall env k self tr,
  truthy (max_requests self) = false -> is_exit self = None ->
  (forall j, (j < n)%nat -> quiet self (env (k + j)%nat)) ->
  _run n env k self tr = None.
Proof.
  intros env k self tr Hm He Hq.
  destruct (passes_quiet n env k self tr Hm He Hq) as (s' & evs & Hd & _).
  by eapply passes_done_running.
Qed.

(** A signalled pass whose call comes back in time is the last one. *)
Lemma _run_signalled_pass fuel env k self tr :
  loop_cond self = true ->
  signalled (env k) = true ->
  in_time self (env k) ->
  match outcome (env k) with
  | Returns _ => True
  | Raises e => is_Exception e = true /\ is_TimeoutException e = false
  end ->
  exists self' evs,
    _run (S (S fuel)) env k self tr = Some (Returned self' (tr ++ evs))
    /\ is_exit self' = Some signal
    /\ max_requests self' = max_requests self
    /\ timeout self' = timeout self
    /\ count self'
       = count self + match outcome (env k) with
                      | Returns true => 1
                      | _ => 0
                      end
    /\ occurrences is_run evs = 1%nat
    /\ (fails (env k) -> occurrences is_log_exception evs = 1%nat).
Proof.
  intros Hc Hs Hi Ho.
  destruct (call_in_time self (env k) tr Hi) as (evs & Hcall & _ & Hl & Hr).
  cbn [_run]. rewrite Hc. unfold body. rewrite Hcall, Hs.
  destruct (outcome (env k)) as [ret|e] eqn:Hout.
  - assert (Hx : forall s : t,
              check_point (if ret then set_count s (count s + 1) else s)
              = check_point s) by (intros s; by destruct ret).
    rewrite Hx. cbn [check_point set_is_exit].
    assert (Hnf : ~ fails (env k)).
    { intros (e & He & _). congruence. }
    destruct (truthy (check_point self)).
    + destruct (time_sleep_cases (value (check_point self)))
        as [->|[(_ & ->)|(_ & ->)]]; unfold handle; simpl;
        rewrite <- ?app_assoc;
        (rewrite (loop_cond_exiting _ signal) by by destruct ret);
        eexists _, _; (split; [reflexivity|]);
        rewrite occurrences_app, Hr; unfold occurrences; simpl;
        destruct ret; simpl; repeat split; try lia; try done.
    + rewrite (loop_cond_exiting _ signal) by by destruct ret.
      eexists _, _. split; [reflexivity|].
      destruct ret; simpl; repeat split; try lia; try done.
  - destruct Ho as [He Ht]. unfold handle. rewrite Ht, He.
    rewrite <- app_assoc.
    rewrite (loop_cond_exiting _ signal) by done.
    eexists _, _. split; [reflexivity|]. simpl.
    rewrite !occurrences_app, Hr, Hl. unfold occurrences. simpl.
    repeat split; lia.
Qed.

(** A pass whose call is cut short by the alarm is the last one. *)
Lemma _run_timed_out_pass fuel env k self tr :
  loop_cond self = true ->
  truthy (timeout self) = true ->
  Timeout.fits_int (value (timeout self)) = true ->
  Timeout.fires (value (timeout self)) (duration (env k)) = true ->
  exists self' evs,
    _run (S fuel) env k self tr = Some (Returned self' (tr ++ evs))
    /\ is_exit self' = Some timeout_flag
    /\ max_requests self' = max_requests self
    /\ timeout self' = timeout self
    /\ count self' = count self
    /\ occurrences is_run evs = 1%nat.
Proof.
  intros Hc Hg Hfit Hfire.
  cbn [_run]. rewrite Hc.
  unfold body, call, hears, signal_handler, Timeout.__enter__, Timeout.__exit__.
  rewrite Hg, Hfit, Hfire.
  destruct (signalled (env k)); simpl; rewrite <- ?app_assoc;
    eexists _, _; (split; [reflexivity|]); repeat split.
Qed.

Lemma _run_count fuel : forall env k self tr r,
  _run fuel env k self tr = Some r ->
  count self <= count (exit_self r)
  /\ count (exit_self r) - count self
     <= Z.of_nat (occurrences is_run (exit_trace r))
        - Z.of_nat (occurrences is_run tr)
  /\ (forall N, max_requests self = Some N -> N <> 0 -> count self <= N ->
        count (exit_self r) <= N).
Proof.
  induction fuel as [|fuel IH]; intros env k self tr r; simpl; [done|].
  destruct (loop_cond self) eqn:Hc.
  - pose proof (body_inv self (env k) tr) as Hb.
    destruct (body self (env k) tr) as [s1 t1|s1 t1|e s1 t1].
    + intros Hr. apply IH in Hr as (H1 & H2 & H3).
      destruct Hb as (Hm & _ & _ & Hle & Hcnt & Hone & _).
      split; [lia|]. split; [lia|].
      intros N HmN HN Hle'. apply H3; [congruence | done |].
      pose proof (loop_cond_true_bound self N Hc HmN HN). lia.
    + intros [= <-]. destruct Hb as ((Hm & _ & _ & Hle & Hcnt & _) & Heq & _).
      simpl. split; [lia|]. split; [lia|]. intros; lia.
    + intros [= <-]. destruct Hb as ((Hm & _ & _ & Hle & Hcnt & Hone & _) & _).
      simpl. split; [lia|]. split; [lia|].
      intros N HmN HN Hle'.
      pose proof (loop_cond_true_bound self N Hc HmN HN). lia.
  - intros [= <-]. simpl. split; [lia|]. split; [lia|]. intros; lia.
Qed.

Lemma body_alarm self p tr :
  alarm_scan false tr = Some false ->
  alarm_scan false (step_trace (body self p tr)) = Some false.
Proof.
  intros H.
  destruct (call_inv self p tr) as (res & evs & Hc & _ & _ & Ha & _).
  unfold body. rewrite Hc.
  assert (Hh : forall e s evs',
            alarm_scan false evs' = Some false ->
            alarm_scan false (step_trace (handle e s (tr ++ evs ++ evs')))
            = Some false).
  { intros e s evs' He'. unfold handle.
    destruct (is_TimeoutException e), (is_Exception e); simpl;
      rewrite <- ?app_assoc; rewrite alarm_scan_app, H; simpl;
      rewrite alarm_scan_app, Ha; simpl;
      rewrite ?alarm_scan_app, ?He'; done. }
  destruct res as [ret|e].
  - match goal with
    | |- context [truthy (check_point ?s)] => destruct (truthy (check_point s))
    end.
    + match goal with
      | |- context [time_sleep ?c] =>
          destruct (time_sleep_cases c) as [->|[(_ & ->)|(_ & ->)]]
      end.
      * simpl. rewrite <- app_assoc. rewrite alarm_scan_app, H. simpl.
        by rewrite alarm_scan_app, Ha.
      * unfold handle. simpl. rewrite <- app_assoc.
        rewrite alarm_scan_app, H. simpl. by rewrite alarm_scan_app, Ha.
      * unfold handle. simpl. rewrite <- app_assoc.
        rewrite alarm_scan_app, H. simpl. by rewrite alarm_scan_app, Ha.
    + simpl. rewrite alarm_scan_app, H. done.
  - match goal with
    | |- context [handle e ?s _] => pose proof (Hh e s [] eq_refl) as Hv
    end.
    by rewrite app_nil_r in Hv.
Qed.

Lemma _run_alarm fuel : forall env k self tr r,
  alarm_scan false tr = Some false ->
  _run fuel env k self tr = Some r ->
  alarm_scan false (exit_trace r) = Some false.
Proof.
  induction fuel as [|fuel IH]; intros env k self tr r Ha; simpl; [done|].
  destruct (loop_cond self).
  - pose proof (body_alarm self (env k) tr Ha) as Hb.
    destruct (body self (env k) tr) as [s1 t1|s1 t1|e s1 t1]; simpl in Hb.
    + by apply IH.
    + by intros [= <-].
    + by intros [= <-].
  - by intros [= <-].
Qed.

(** What [start] does around [_run], read off its result. *)
Lemma start_unfold fuel w self :
  start fuel w self
  = let s0 := if pre_signal w then signal_handler self (init self [])
              else (self, init self []) in
    match _run fuel (passes w) 0 s0.1 s0.2 with
    | Some (Returned self' tr') => Some (after_run self' tr')
    | other => other
    end.
Proof. unfold start. by destruct (pre_signal w). Qed.

Lemma after_run_exit self tr :
  exit_self (after_run self tr) = self
  /\ (exit_trace (after_run self tr) = tr
      \/ exists m, exit_trace (after_run self tr) = tr ++ [EvLog m]).
Proof.
  unfold after_run.
  destruct (is_exit self) as [[]|], (timeout self), (max_requests self);
    simpl; eauto.
Qed.

End WorkerLoop.

(** *** C1 *)

(** C1. A worker constructed with [max_requests = N], [N > 0], whose unit
    of work returns a truthy value on each of its first [N] calls, each
    within the deadline (when one is set, and set to a number of seconds
    that [signal.alarm] accepts), and which receives no signal
    meanwhile: [start] returns normally after exactly [N] invocations of
    the unit of work, with [count = N]; [is_exit] is still [None], which
    is how the module records the max-requests outcome, and [after_run]
    closes the trace with the "reaching max requests count [N]" line. *)
Theorem C1_max_requests_reached
    (_id : nat) (log : option string) (N : Z) (soft hard : Q)
    (timeout check_point : option Z) (name : option string)
    (w : Worker.World) (fuel : nat) :
  0 < N ->
  Worker.pre_signal w = false ->
  (forall k, (k < Z.to_nat N)%nat ->
     Worker.outcome (Worker.passes w k) = Worker.Returns true
     /\ Worker.signalled (Worker.passes w k) = false
     /\ (truthy timeout = true ->
         Timeout.fits_int (value timeout) = true
         /\ Worker.duration (Worker.passes w k)
            <= Timeout.seconds (value timeout))) ->
  (Z.to_nat N < fuel)%nat ->
  exists self' tr,
    Worker.start fuel w
      (Worker.__init__ _id log (Some N) soft hard timeout check_point name).1
    = Some (Worker.Returned self' (tr ++ [EvLog (CancelledByMaxRequests N)]))
    /\ Worker.count self' = N
    /\ Worker.is_exit self' = None
    /\ occurrences is_run tr = Z.to_nat N.
Proof.
  intros HN Hpre Hgood Hfuel. unfold Worker.start. rewrite Hpre. simpl.
  set (self := Worker.mk _ _ _ _ _ _ _ _ _).
  destruct (_run_reaches_bound (Z.to_nat N) (Worker.passes w) 0 self
              (Worker.init self []) N fuel)
    as (self' & evs & Hrun & Hc & He & Hm & Hr); try done.
  - simpl. lia.
  - rewrite Hrun. unfold Worker.after_run. rewrite He, Hm.
    eexists self', _. split; [reflexivity|].
    repeat split; done.
Qed.

Lemma C1_max_requests_reached_witness :
  exists self' tr,
    Worker.start 3 world_returning_true
      (Worker.__init__ 1 None (Some 2) (Qmake 200 1) (Qmake 300 1) (Some 5)
         None None).1
    = Some (Worker.Returned self' (tr ++ [EvLog (CancelledByMaxRequests 2)]))
    /\ Worker.count self' = 2
    /\ Worker.is_exit self' = None
    /\ occurrences is_run tr = Z.to_nat 2.
Proof.
  apply C1_max_requests_reached; [lia | reflexivity | | simpl; lia].
  intros k _. split; [reflexivity|]. split; [reflexivity|].
  intros _. split; [reflexivity|]. by vm_compute.
Defined.

(** *** C4 *)

(** C4. A worker constructed with [timeout = T], a positive number of
    seconds that [signal.alarm] accepts, that enters its loop (no bound,
    or a positive one, and no signal before the first loop test) and whose
    first call of the unit of work lasts longer than [T] seconds: [start]
    returns normally (the TimeoutException does not leave [_run]) after
    that single invocation, with [is_exit = 'timeout'] and [count = 0]. *)
Theorem C4_first_call_times_out
    (_id : nat) (log : option string) (max_requests : option Z) (soft hard : Q)
    (T : Z) (check_point : option Z) (name : option string)
    (w : Worker.World) (fuel : nat) :
  0 < T < 2147483648 ->
  truthy max_requests = false \/ 0 < value max_requests ->
  Worker.pre_signal w = false ->
  T < Worker.duration (Worker.passes w 0) ->
  (0 < fuel)%nat ->
  exists self' tr,
    Worker.start fuel w
      (Worker.__init__ _id log max_requests soft hard (Some T) check_point name).1
    = Some (Worker.Returned self' (tr ++ [EvLog (CancelledByTimeout T)]))
    /\ Worker.is_exit self' = Some Worker.timeout_flag
    /\ Worker.count self' = 0
    /\ occurrences is_run tr = 1%nat.
Proof.
  intros HT Hm Hpre Hd Hfuel. destruct fuel as [|fuel]; [lia|].
  unfold Worker.start, Worker.__init__. rewrite Hpre. cbn [fst].
  set (self := Worker.mk _ _ _ _ _ _ _ _ _).
  destruct (_run_timed_out_pass fuel (Worker.passes w) 0 self
              (Worker.init self []))
    as (self' & evs & Hrun & He & _ & Ht & Hc & Hr).
  - by apply loop_cond_fresh.
  - simpl. destruct (Z.eqb_spec T 0); [lia|done].
  - unfold Timeout.fits_int. simpl.
    apply andb_true_iff. split; [apply Z.leb_le | apply Z.ltb_lt]; lia.
  - unfold Timeout.fires, Timeout.seconds. simpl.
    rewrite Z.mod_small by lia. by apply Z.ltb_lt.
  - rewrite Hrun. unfold Worker.after_run. rewrite He, Ht.
    subst self. cbn [Worker.timeout].
    eexists self', _. split; [reflexivity|]. repeat split; done.
Qed.

Lemma C4_first_call_times_out_witness :
  exists self' tr,
    Worker.start 1 world_slow_calls
      (Worker.__init__ 1 None (Some 2) (Qmake 5 1) (Qmake 10 1) (Some 5)
         None (Some "NewWorker"%string)).1
    = Some (Worker.Returned self' (tr ++ [EvLog (CancelledByTimeout 5)]))
    /\ Worker.is_exit self' = Some Worker.timeout_flag
    /\ Worker.count self' = 0
    /\ occurrences is_run tr = 1%nat.
Proof.
  apply C4_first_call_times_out;
    [lia | right; simpl; lia | reflexivity | simpl; lia | lia].
Defined.

(** *** C7 *)

(** C7. A worker whose unit of work fails with an ordinary (non-timeout)
    error on every call.  Whatever the fuel, [start] never lets an
    exception out, and when it returns the counter is still 0 and the loop
    was ended by a signal, by the deadline, or by the bound (which, with
    the counter stuck at 0, can only be a bound that forbids the first
    pass).  As long as no signal arrives and no call is cut short, the
    loop is still running after any number [n] of passes, having called
    the unit of work [n] times and logged [n] errors, the state of the
    worker unchanged; and when the signal then arrives during pass [n],
    [start] returns after that pass with [is_exit = 'signal'], the counter
    at 0, [n + 1] calls made and [n + 1] errors logged. *)
Theorem C7_failures_never_count_nor_end
    (_id : nat) (log : option string) (max_requests : option Z) (soft hard : Q)
    (timeout check_point : option Z) (name : option string)
    (w : Worker.World) (fuel n : nat) :
  (forall k, fails (Worker.passes w k)) ->
  let self :=
    (Worker.__init__ _id log max_requests soft hard timeout check_point name).1 in
  match Worker.start fuel w self with
  | None => True
  | Some (Worker.Returned self' _) =>
      Worker.count self' = 0
      /\ (Worker.is_exit self' = Some Worker.signal
          \/ Worker.is_exit self' = Some Worker.timeout_flag
          \/ (Worker.is_exit self' = None
              /\ truthy max_requests = true /\ value max_requests <= 0))
  | Some (Worker.Propagated _ _ _) => False
  end
  /\ (truthy max_requests = false \/ 0 < value max_requests ->
      Worker.pre_signal w = false ->
      (forall k, (k < n)%nat ->
         Worker.signalled (Worker.passes w k) = false
         /\ in_time self (Worker.passes w k)) ->
      Worker.start n w self = None
      /\ (exists evs,
            Worker.passes_done n (Worker.passes w) 0 self (Worker.init self [])
            = Some (self, Worker.init self [] ++ evs)
            /\ occurrences is_run evs = n
            /\ occurrences is_log_exception evs = n)
      /\ (Worker.signalled (Worker.passes w n) = true ->
          in_time self (Worker.passes w n) ->
          exists self' tr',
            Worker.start (S (S n)) w self = Some (Worker.Returned self' tr')
            /\ Worker.is_exit self' = Some Worker.signal
            /\ Worker.count self' = 0
            /\ occurrences is_run tr' = S n
            /\ occurrences is_log_exception tr' = S n)).
Proof.
  intros Hf self. split.
  - unfold Worker.start.
    set (s0 := if Worker.pre_signal w then _ else _).
    assert (Hs0 : Worker.count s0.1 = 0 /\ Worker.max_requests s0.1 = max_requests
                  /\ Worker.is_exit s0.1 <> Some Worker.timeout_flag).
    { subst s0. by destruct (Worker.pre_signal w). }
    destruct s0 as [self0 tr0]. simpl in Hs0. destruct Hs0 as (Hc0 & Hm0 & He0).
    destruct (Worker._run fuel (Worker.passes w) 0 self0 tr0) as [r|] eqn:Hr; [|done].
    apply _run_fails in Hr as (self' & tr' & -> & Hc & Hm & Ht & Hl & Hto); try done.
    unfold Worker.after_run.
    destruct (Worker.is_exit self') as [[]|] eqn:He.
    + split; [congruence | by left].
    + specialize (Hto eq_refl). rewrite Ht.
      destruct (Worker.timeout self0); [|done].
      split; [congruence | right; by left].
    + unfold Worker.loop_cond in Hl. rewrite He, Hm, Hm0, Hc, Hc0 in Hl.
      simpl in Hl. rewrite andb_true_r in Hl.
      rewrite Hm, Hm0.
      destruct max_requests as [m|]; simpl in *; [|done].
      destruct (Z.eqb_spec m 0); simpl in Hl; [done|].
      apply Z.ltb_ge in Hl.
      split; [congruence|]. right. right. repeat split; done.
  - intros Hm Hpre Hq.
    assert (Hc : Worker.loop_cond self = true) by by apply loop_cond_fresh.
    destruct (_run_fails_quietly n (Worker.passes w) 0 self (Worker.init self [])
                Hc Hf) as (Hnone & evs & Hdone & Hr & Hl & _).
    { intros j Hj. apply (Hq j Hj). }
    split; [|split].
    + unfold Worker.start. rewrite Hpre. fold self. by rewrite Hnone.
    + by exists evs.
    + intros Hs Hi.
      destruct (_run_signalled_pass 0 (Worker.passes w) n self
                  (Worker.init self [] ++ evs) Hc Hs Hi)
        as (self' & evs' & Hrun & He & _ & _ & Hcnt & Hr' & Hl').
      { destruct (Hf n) as (e & -> & He & Ht). done. }
      unfold Worker.start. rewrite Hpre. fold self.
      replace (S (S n)) with (n + 2)%nat by lia.
      rewrite (passes_done_run n _ _ _ _ _ _ 2 Hdone). simpl (0 + n)%nat.
      rewrite Hrun. unfold Worker.after_run. rewrite He.
      eexists _, _. split; [reflexivity|]. split; [done|].
      destruct (Hf n) as (e & Ho & _). rewrite Ho in Hcnt.
      split; [by rewrite Hcnt|].
      rewrite !occurrences_app, Hr, Hl, Hr', (Hl' (Hf n)).
      unfold Worker.init, occurrences. simpl. split; lia.
Qed.

Lemma C7_failures_never_count_nor_end_witness :
  let self := (Worker.__init__ 1 None (Some 3) (Qmake 200 1) (Qmake 300 1) None
                 None None).1 in
  match Worker.start 5 world_failing_calls self with
  | None => True
  | Some (Worker.Returned self' _) =>
      Worker.count self' = 0
      /\ (Worker.is_exit self' = Some Worker.signal
          \/ Worker.is_exit self' = Some Worker.timeout_flag
          \/ (Worker.is_exit self' = None
              /\ truthy (Some 3) = true /\ value (Some 3) <= 0))
  | Some (Worker.Propagated _ _ _) => False
  end
  /\ Worker.start 2 world_failing_calls self = None
  /\ (exists evs,
        Worker.passes_done 2 (Worker.passes world_failing_calls) 0 self
          (Worker.init self [])
        = Some (self, Worker.init self [] ++ evs)
        /\ occurrences is_run evs = 2%nat
        /\ occurrences is_log_exception evs = 2%nat)
  /\ (exists self' tr',
        Worker.start 4 world_failing_calls self
        = Some (Worker.Returned self' tr')
        /\ Worker.is_exit self' = Some Worker.signal
        /\ Worker.count self' = 0
        /\ occurrences is_run tr' = 3%nat
        /\ occurrences is_log_exception tr' = 3%nat).
Proof.
  assert (Hf : forall k, fails (Worker.passes world_failing_calls k)).
  { intros k. exists UserError. repeat split. }
  destruct (C7_failures_never_count_nor_end 1 None (Some 3) (Qmake 200 1)
              (Qmake 300 1) None None None world_failing_calls 5 2 Hf)
    as [H1 H2].
  split; [exact H1|].
  destruct H2 as (H2 & H3 & H4); [right; simpl; lia | reflexivity | |].
  - intros k Hk. split; [|discriminate].
    destruct k as [|[|k]]; [reflexivity | reflexivity | lia].
  - split; [exact H2|]. split; [exact H3|].
    apply H4; [reflexivity | discriminate].
Defined.

(** *** C9 *)

(** C9. A worker constructed with a falsy bound ([None] or [0]): its loop
    test holds at every value of the counter; when [start] returns, the
    loop was ended by a signal or by the deadline, and (unless the signal
    came before the first loop test, or the alarm cannot be armed) the
    unit of work was called at least once.  As long as the passes are
    quiet the loop does not end: after [n] quiet passes it is still
    running, a signal during pass [n] makes [start] return after that pass
    with [is_exit = 'signal'] and [n + 1] calls made, and a call cut short
    by the alarm in pass [n] makes it return with [is_exit = 'timeout']
    and [n + 1] calls made. *)
Theorem C9_falsy_bound_is_unbounded
    (_id : nat) (log : option string) (max_requests : option Z) (soft hard : Q)
    (timeout check_point : option Z) (name : option string)
    (w : Worker.World) (fuel n : nat) (c : Z) :
  truthy max_requests = false ->
  let self :=
    (Worker.__init__ _id log max_requests soft hard timeout check_point name).1 in
  Worker.loop_cond (Worker.set_count self c) = true
  /\ match Worker.start fuel w self with
     | Some (Worker.Returned self' tr') =>
         (Worker.is_exit self' = Some Worker.signal
          \/ Worker.is_exit self' = Some Worker.timeout_flag)
         /\ (Worker.pre_signal w = false -> alarm_fits timeout ->
             (0 < occurrences is_run tr')%nat)
     | _ => True
     end
  /\ (Worker.pre_signal w = false ->
      (forall k, (k < n)%nat -> quiet self (Worker.passes w k)) ->
      Worker.start n w self = None
      /\ (Worker.signalled (Worker.passes w n) = true ->
          in_time self (Worker.passes w n) ->
          match Worker.outcome (Worker.passes w n) with
          | Worker.Returns _ => True
          | Worker.Raises e =>
              is_Exception e = true /\ is_TimeoutException e = false
          end ->
          exists self' tr',
            Worker.start (S (S n)) w self = Some (Worker.Returned self' tr')
            /\ Worker.is_exit self' = Some Worker.signal
            /\ occurrences is_run tr' = S n)
      /\ (truthy timeout = true ->
          Timeout.fits_int (value timeout) = true ->
          Timeout.fires (value timeout)
            (Worker.duration (Worker.passes w n)) = true ->
          exists self' tr',
            Worker.start (S n) w self = Some (Worker.Returned self' tr')
            /\ Worker.is_exit self' = Some Worker.timeout_flag
            /\ occurrences is_run tr' = S n)).
Proof.
  intros Hm self. split; [|split].
  - unfold Worker.loop_cond. simpl. by rewrite Hm.
  - unfold Worker.start.
    set (s0 := if Worker.pre_signal w then _ else _).
    assert (Hs0 : Worker.max_requests s0.1 = max_requests
                  /\ Worker.timeout s0.1 = timeout
                  /\ (Worker.pre_signal w = false ->
                      Worker.loop_cond s0.1 = true
                      /\ occurrences is_run s0.2 = 0%nat)).
    { subst s0. destruct (Worker.pre_signal w); simpl; [done|].
      split; [done|]. split; [done|]. intros _.
      unfold Worker.loop_cond. simpl. by rewrite Hm. }
    destruct s0 as [self0 tr0]. simpl in Hs0. destruct Hs0 as (Hm0 & Ht0 & Hpre).
    destruct (Worker._run fuel (Worker.passes w) 0 self0 tr0) as [[self' tr'|]|] eqn:Hr;
      [|done..].
    pose proof (_run_returned_stops _ _ _ _ _ _ _ Hr) as Hl.
    pose proof (_run_calls _ _ _ _ _ _ _ Hr) as (Hm' & Ht' & Hle & Hlt).
    unfold Worker.loop_cond in Hl. rewrite Hm', Hm0, Hm in Hl. simpl in Hl.
    unfold Worker.after_run.
    destruct (Worker.is_exit self') as [[]|] eqn:He; [| |done].
    + split; [by left|]. intros Hp Hfit. destruct (Hpre Hp) as (Hc0 & Hz).
      rewrite Ht0 in Hlt. specialize (Hlt Hc0 Hfit).
      rewrite occurrences_app. lia.
    + destruct (Worker.timeout self'); [|done].
      split; [by right|]. intros Hp Hfit. destruct (Hpre Hp) as (Hc0 & Hz).
      rewrite Ht0 in Hlt. specialize (Hlt Hc0 Hfit).
      rewrite occurrences_app. lia.
  - intros Hpre Hq.
    destruct (passes_quiet n (Worker.passes w) 0 self (Worker.init self [])
                Hm eq_refl Hq) as (s1 & evs & Hdone & He1 & Hm1 & Ht1 & Hr1).
    assert (Hc1 : Worker.loop_cond s1 = true).
    { unfold Worker.loop_cond. by rewrite Hm1, He1; simpl; rewrite Hm. }
    split; [|split].
    + unfold Worker.start. rewrite Hpre. fold self.
      by rewrite (passes_done_running _ _ _ _ _ _ _ Hdone).
    + intros Hs Hi Ho.
      destruct (_run_signalled_pass 0 (Worker.passes w) n s1
                  (Worker.init self [] ++ evs) Hc1 Hs)
        as (self' & evs' & Hrun & He & _ & _ & _ & Hr' & _); [|done|].
      { unfold in_time in *. by rewrite Ht1. }
      unfold Worker.start. rewrite Hpre. fold self.
      replace (S (S n)) with (n + 2)%nat by lia.
      rewrite (passes_done_run n _ _ _ _ _ _ 2 Hdone). simpl (0 + n)%nat.
      rewrite Hrun. unfold Worker.after_run. rewrite He.
      eexists _, _. split; [reflexivity|]. split; [done|].
      rewrite !occurrences_app, Hr1, Hr'.
      unfold Worker.init, occurrences. simpl. lia.
    + intros Hg Hfit Hfire.
      destruct (_run_timed_out_pass 0 (Worker.passes w) n s1
                  (Worker.init self [] ++ evs) Hc1)
        as (self' & evs' & Hrun & He & _ & Ht' & _ & Hr'); try by rewrite Ht1.
      unfold Worker.start. rewrite Hpre. fold self.
      replace (S n) with (n + 1)%nat by lia.
      rewrite (passes_done_run n _ _ _ _ _ _ 1 Hdone). simpl (0 + n)%nat.
      rewrite Hrun. unfold Worker.after_run. rewrite He, Ht', Ht1.
      destruct timeout as [sec|]; [|done].
      change (Worker.timeout self) with (Some sec). cbv iota.
      eexists _, _. split; [reflexivity|]. split; [done|].
      rewrite !occurrences_app, Hr1, Hr'.
      unfold Worker.init, occurrences. simpl. lia.
Qed.

Lemma C9_falsy_bound_is_unbounded_witness :
  let self := (Worker.__init__ 1 None (Some 0) (Qmake 200 1) (Qmake 300 1) None
                 None None).1 in
  Worker.loop_cond (Worker.set_count self 7) = true
  /\ match Worker.start 9 world_signal_at_pass_3 self with
     | Some (Worker.Returned self' tr') =>
         (Worker.is_exit self' = Some Worker.signal
          \/ Worker.is_exit self' = Some Worker.timeout_flag)
         /\ (Worker.pre_signal world_signal_at_pass_3 = false ->
             alarm_fits None -> (0 < occurrences is_run tr')%nat)
     | _ => True
     end
  /\ Worker.start 3 world_signal_at_pass_3 self = None
  /\ (exists self' tr',
        Worker.start 5 world_signal_at_pass_3 self
        = Some (Worker.Returned self' tr')
        /\ Worker.is_exit self' = Some Worker.signal
        /\ occurrences is_run tr' = 4%nat).
Proof.
  destruct (C9_falsy_bound_is_unbounded 1 None (Some 0) (Qmake 200 1)
              (Qmake 300 1) None None None world_signal_at_pass_3 9 3 7 eq_refl)
    as (H1 & H2 & H3).
  split; [exact H1|]. split; [exact H2|].
  destruct H3 as (H3 & H4 & _); [reflexivity | |].
  - intros k Hk. repeat split; [|discriminate].
    destruct k as [|[|[|k]]]; [reflexivity.. | lia].
  - split; [exact H3|]. apply H4; [reflexivity | discriminate | exact I].
Defined.

(** *** C10 *)



(** ** The manager *)
Section ManagerLoop.
Import Manager.

Lemma set_os_same st : set_os st (os st) = st.
Proof. by destruct st. Qed.

Lemma enumerate_from_app {A} (a b : list A) : forall start,
  enumerate_from start (a ++ b)
  = enumerate_from start a ++ enumerate_from (start + length a) b.
Proof.
  induction a as [|x a IH]; intros start; simpl.
  - by rewrite Nat.add_0_r.
  - rewrite IH. by replace (S start + length a)%nat with (start + S (length a))%nat by lia.
Qed.

Lemma for_slots_app w a b st :
  for_slots w (a ++ b) st
  = match for_slots w a st with
    | Next st' => for_slots w b st'
    | other => other
    end.
Proof.
  revert st. induction a as [|[i worker] a IH]; intros st; simpl; [done|].
  destruct (slot w i worker st); by rewrite ?IH.
Qed.

Lemma slot_fork_error w i worker st :
  needs_spawn st i -> fork w (fork_calls st) = ForkError ->
  exists st',
    slot w i worker st = Raised OSError st'
    /\ pids st' = pids st /\ os st' = os st
    /\ (trace st' = trace st
        \/ exists pid, trace st' = trace st ++ [EvLog (NotExisted pid)]).
Proof.
  intros [Hn|(pid & Hp & He)] Hf; unfold slot, create.
  - rewrite Hn, Hf. eexists. split; [reflexivity|]. simpl. by auto.
  - rewrite Hp, He. simpl. rewrite Hf.
    eexists. split; [reflexivity|]. simpl. by eauto.
Qed.

(** What [get_memory] does, by the state of the process. *)
Lemma get_memory_cases os pid :
  get_memory os pid
  = match os !! pid with
    | Some {| OS.child := true; OS.state := OS.Running rss |} =>
        (OS.Ok (Qmake (Z.of_N rss) 1048576), os)
    | Some {| OS.child := true; OS.state := OS.Zombie _ |} =>
        (OS.Ok (Qmake 0 1), delete pid os)
    | _ => (OS.Raise ChildProcessError, os)
    end.
Proof.
  unfold get_memory, OS.waitpid_nohang, OS.memory_info_rss.
  destruct (os !! pid) as [[[] []]|] eqn:H; simpl; by rewrite ?H.
Qed.

Lemma emit_emit st a b : emit (emit st a) b = emit st (a ++ b).
Proof. unfold emit. simpl. by rewrite app_assoc. Qed.


Lemma pid_exists_true (os : gmap positive OS.Proc) pid proc :
  os !! pid = Some proc -> OS.pid_exists os pid = true.
Proof. intros H. unfold OS.pid_exists. apply bool_decide_eq_true. by eexists. Qed.

Lemma pid_exists_false (os : gmap positive OS.Proc) pid :
  os !! pid = None -> OS.pid_exists os pid = false.
Proof.
  intros H. unfold OS.pid_exists. apply bool_decide_eq_false.
  rewrite H. by intros [? ?].
Qed.

Lemma pid_exists_lookup (os : gmap positive OS.Proc) pid :
  OS.pid_exists os pid = true -> exists proc, os !! pid = Some proc.
Proof. unfold OS.pid_exists. intros H. by apply bool_decide_eq_true in H. Qed.

(** A process the manager may signal: its own child, or one the system
    does not protect from it. *)
Lemma kill_child_allowed w st pid sig proc :
  os st !! pid = Some proc ->
  OS.child proc = true \/ kill_denied w pid = false ->
  kill_child w st pid sig = Next (emit st [EvKill pid sig]).
Proof.
  intros Ho Hk. unfold kill_child, OS.kill.
  rewrite (pid_exists_true _ _ _ Ho), Ho.
  destruct proc as [[] s]; [done|]. simpl in Hk.
  destruct Hk as [Hk|Hk]; [done | by rewrite Hk].
Qed.

Lemma kill_child_gone w st pid sig :
  OS.pid_exists (os st) pid = false -> kill_child w st pid sig = Next st.
Proof. intros H. unfold kill_child. by rewrite H. Qed.

(** [kill_child] sends the signal, or does nothing, or fails on a process
    that is not the manager's and that it may not signal. *)
Lemma kill_child_cases w st pid sig :
  kill_child w st pid sig = Next st /\ OS.pid_exists (os st) pid = false
  \/ kill_child w st pid sig = Next (emit st [EvKill pid sig])
     /\ OS.pid_exists (os st) pid = true
  \/ kill_child w st pid sig = Raised PermissionError st
     /\ kill_denied w pid = true
     /\ exists s, os st !! pid = Some {| OS.child := false; OS.state := s |}.
Proof.
  unfold kill_child, OS.kill.
  destruct (OS.pid_exists (os st) pid) eqn:He; [|by left].
  destruct (pid_exists_lookup _ _ He) as ([[] s] & Ho); rewrite Ho.
  - right. by left.
  - destruct (kill_denied w pid) eqn:Hd; [|right; by left].
    right. right. repeat split. by exists s.
Qed.

(** Inspection never forks, never touches the pids on record and never
    fails. *)
Lemma inspect_next w worker pid st :
  exists st',
    inspect w worker pid st = Next st'
    /\ pids st' = pids st /\ fork_calls st' = fork_calls st.
Proof.
  unfold inspect. rewrite get_memory_cases.
  assert (Hk : forall st0 sig evs,
            exists st',
              caught match kill_child w st0 pid sig with
                     | Next st1 => Next (emit st1 evs)
                     | other => other
                     end = Next st'
              /\ pids st' = pids st0 /\ fork_calls st' = fork_calls st0).
  { intros st0 sig evs.
    destruct (kill_child_cases w st0 pid sig)
      as [(-> & _)|[(-> & _)|(-> & _)]]; simpl;
      eexists; (split; [reflexivity|]); done. }
  assert (Hk' : forall st0 sig,
            exists st',
              caught (kill_child w st0 pid sig) = Next st'
              /\ pids st' = pids st0 /\ fork_calls st' = fork_calls st0).
  { intros st0 sig.
    destruct (kill_child_cases w st0 pid sig)
      as [(-> & _)|[(-> & _)|(-> & _)]]; simpl;
      eexists; (split; [reflexivity|]); done. }
  destruct (os st !! pid) as [[[] []]|]; simpl;
    try (eexists; (split; [reflexivity|]); done);
    (destruct (Worker.reached_hard_memory_limit worker _);
       [match goal with
        | |- context [kill_child w ?s0 pid ?sig] =>
            destruct (Hk' s0 sig) as (st' & -> & H1 & H2)
        end; by exists st' |
        destruct (Worker.reached_soft_memory_limit worker _);
          [match goal with
           | |- context [kill_child w ?s0 pid ?sig] =>
               destruct (Hk s0 sig [EvLog (ReachesSoft pid)])
                 as (st' & -> & H1 & H2)
           end; by exists st'
          | eexists; (split; [reflexivity|]); done]]).
Qed.

Lemma create_cases w i st :
  match create w i st with
  | Next st' =>
      exists pid rss,
        fork w (fork_calls st) = ForkParent pid rss
        /\ pids st' = <[i := pid]> (pids st)
        /\ os st' = <[pid := {| OS.child := true; OS.state := OS.Running rss |}]> (os st)
        /\ fork_calls st' = S (fork_calls st)
        /\ trace st' = trace st ++ [EvFork]
  | InChild j st' =>
      j = i /\ fork w (fork_calls st) = ForkChild /\ pids st' = pids st
  | Raised e st' =>
      e = OSError /\ fork w (fork_calls st) = ForkError /\ pids st' = pids st
  end.
Proof.
  unfold create. destruct (fork w (fork_calls st)) as [pid rss| |]; simpl;
    [by exists pid, rss | done | done].
Qed.



(** [loop] picks up where [after_passes] has got to. *)
Lemma after_passes_loop n : forall w k self st self' st' fuel,
  after_passes n w k self st = Some (self', st') ->
  loop (n + fuel) w k self st = loop fuel w (k + n) self' st'.
Proof.
  induction n as [|n IH]; intros w k self st self' st' fuel; simpl.
  - intros [= <- <-]. by rewrite Nat.add_0_r.
  - destruct (is_exit self); [done|].
    destruct (iteration w k self st) as [s1 st1|]; [|done].
    intros H. rewrite (IH _ _ _ _ _ _ fuel H).
    by replace (S k + n)%nat with (k + S n)%nat by lia.
Qed.

(** A failing [fork] ends the loop, whatever pass and slot it happens at. *)
Lemma loop_fork_error fuel w k self st before worker after st_i :
  is_exit self = false ->
  workers self = before ++ worker :: after ->
  for_slots w (enumerate before) st = Next st_i ->
  needs_spawn st_i (length before) ->
  fork w (fork_calls st_i) = ForkError ->
  exists st',
    loop (S fuel) w k self st = Some (Propagated OSError self st')
    /\ pids st' = pids st_i /\ os st' = os st_i
    /\ (trace st' = trace st_i
        \/ exists pid, trace st' = trace st_i ++ [EvLog (NotExisted pid)]).
Proof.
  intros He Hw Hb Hn Hf.
  destruct (slot_fork_error w (length before) worker st_i Hn Hf)
    as (st' & Hs & Hrest).
  exists st'. split; [|done].
  simpl. rewrite He. unfold iteration, pass, enumerate.
  rewrite Hw, enumerate_from_app.
  rewrite for_slots_app. fold (enumerate before). rewrite Hb. simpl.
  by rewrite Hs.
Qed.

End ManagerLoop.

(** *** C2 *)

(** C2, as stated, fails: with a single slot and a first [fork] that
    raises, the very first pass ends [run] with the OSError propagating;
    nothing has been logged, and there is no next pass in which the second
    [fork], which would succeed, could be tried. *)
Lemma C2_fork_error_counterexample :
  Manager.run 5 world_first_fork_fails default_manager ∅ []
  = Some (Manager.Propagated OSError default_manager
            {| Manager.pids := ∅; Manager.os := ∅; Manager.fork_calls := 1;
               Manager.trace := [] |}).
Proof. reflexivity. Qed.

(** C2, amended. When [os.fork()] raises while [run] is filling a slot, in
    whatever pass (after [n] complete passes, earlier slots of the pass
    having gone through) and for whatever reason the slot is being filled
    (nothing on record yet, or the recorded pid gone), the error is not
    caught in the loop: [run] ends with the OSError propagating, the pids
    on record and the process table are as they were when the slot was
    reached, and nothing about the failure is logged (at most the line
    that the old pid is gone). *)
Theorem C2_fork_error_ends_run
    (fuel n : nat) (w : Manager.World) (self : Manager.t)
    (os0 : gmap positive OS.Proc) (tr : list Event)
    (self_n : Manager.t) (st_n : Manager.State)
    (before after : list Worker.t) (worker : Worker.t) (st_i : Manager.State) :
  Manager.pre_signal w = false ->
  Manager.after_passes n w 0 self
    {| Manager.pids := ∅; Manager.os := os0; Manager.fork_calls := 0;
       Manager.trace := tr |} = Some (self_n, st_n) ->
  Manager.is_exit self_n = false ->
  Manager.workers self_n = before ++ worker :: after ->
  Manager.for_slots w (Manager.enumerate before) st_n = Manager.Next st_i ->
  needs_spawn st_i (length before) ->
  Manager.fork w (Manager.fork_calls st_i) = Manager.ForkError ->
  exists st',
    Manager.run (n + S fuel) w self os0 tr
    = Some (Manager.Propagated OSError self_n st')
    /\ Manager.pids st' = Manager.pids st_i
    /\ Manager.os st' = Manager.os st_i
    /\ (Manager.trace st' = Manager.trace st_i
        \/ exists pid,
             Manager.trace st' = Manager.trace st_i ++ [EvLog (NotExisted pid)]).
Proof.
  intros Hpre Hn He Hw Hb Hneed Hf. unfold Manager.run. rewrite Hpre.
  rewrite (after_passes_loop n _ _ _ _ _ _ (S fuel) Hn).
  by apply (loop_fork_error fuel w _ self_n st_n before worker after st_i).
Qed.

Lemma C2_fork_error_ends_run_witness :
  exists st',
    Manager.run 2 world_second_fork_fails default_manager ∅ []
    = Some (Manager.Propagated OSError default_manager st')
    /\ Manager.pids st' = {[ 0%nat := 8%positive ]}
    /\ Manager.os st' = ∅
    /\ (Manager.trace st' = [EvFork; EvSleep 1]
        \/ exists pid,
             Manager.trace st' = [EvFork; EvSleep 1] ++ [EvLog (NotExisted pid)]).
Proof.
  refine (C2_fork_error_ends_run 0 1 world_second_fork_fails default_manager ∅ []
            default_manager
            {| Manager.pids := {[ 0%nat := 8%positive ]}; Manager.os := ∅;
               Manager.fork_calls := 1; Manager.trace := [EvFork; EvSleep 1] |}
            [] [] default_worker
            {| Manager.pids := {[ 0%nat := 8%positive ]}; Manager.os := ∅;
               Manager.fork_calls := 1; Manager.trace := [EvFork; EvSleep 1] |}
            _ _ _ _ _ _ _);
    try reflexivity.
  right. exists 8%positive. split; reflexivity.
Defined.

(** *** C3 *)

(** C3. A slot whose recorded pid is a running child: the pass reads the
    resident size (in MB) and, by order of the thresholds, sends SIGKILL
    when it has reached the hard limit, else SIGTERM when it has reached
    the soft limit, else does nothing at all. *)
Theorem C3_memory_thresholds
    (w : Manager.World) (i : nat) (worker : Worker.t) (st : Manager.State)
    (pid : positive) (rss : N) :
  Manager.pids st !! i = Some pid ->
  Manager.os st !! pid
    = Some {| OS.child := true; OS.state := OS.Running rss |} ->
  let mem := Qmake (Z.of_N rss) 1048576 in
  get_memory (Manager.os st) pid = (OS.Ok mem, Manager.os st)
  /\ (Qle (Worker.hard_memory_limit worker) mem ->
      Manager.slot w i worker st
      = Manager.Next
          (Manager.emit st [EvLog (ReachesHard pid); EvKill pid SIGKILL]))
  /\ (Qlt mem (Worker.hard_memory_limit worker) ->
      Qle (Worker.soft_memory_limit worker) mem ->
      Manager.slot w i worker st
      = Manager.Next
          (Manager.emit st [EvKill pid SIGTERM; EvLog (ReachesSoft pid)]))
  /\ (Qlt mem (Worker.hard_memory_limit worker) ->
      Qlt mem (Worker.soft_memory_limit worker) ->
      Manager.slot w i worker st = Manager.Next st).
Proof.
  intros Hp Ho mem.
  assert (Hg : get_memory (Manager.os st) pid = (OS.Ok mem, Manager.os st)).
  { by rewrite get_memory_cases, Ho. }
  assert (Hs : Manager.slot w i worker st
               = Manager.inspect w worker pid st).
  { unfold Manager.slot. by rewrite Hp, (pid_exists_true _ _ _ Ho). }
  assert (Hhard : forall b,
            Worker.reached_hard_memory_limit worker mem = b ->
            if b then Qle (Worker.hard_memory_limit worker) mem
            else Qlt mem (Worker.hard_memory_limit worker)).
  { intros [] Hb; unfold Worker.reached_hard_memory_limit in Hb.
    - by apply Qle_bool_iff.
    - apply Qnot_le_lt. rewrite <- Qle_bool_iff. by rewrite Hb. }
  assert (Hsoft : forall b,
            Worker.reached_soft_memory_limit worker mem = b ->
            if b then Qle (Worker.soft_memory_limit worker) mem
            else Qlt mem (Worker.soft_memory_limit worker)).
  { intros [] Hb; unfold Worker.reached_soft_memory_limit in Hb.
    - by apply Qle_bool_iff.
    - apply Qnot_le_lt. rewrite <- Qle_bool_iff. by rewrite Hb. }
  rewrite Hs. unfold Manager.inspect. rewrite Hg, set_os_same.
  rewrite (kill_child_allowed w (Manager.emit st [EvLog (ReachesHard pid)])
             pid SIGKILL _ Ho) by by left.
  rewrite (kill_child_allowed w st pid SIGTERM _ Ho) by by left.
  pose proof (Hhard _ eq_refl) as Hh. pose proof (Hsoft _ eq_refl) as Hso.
  destruct (Worker.reached_hard_memory_limit worker mem),
    (Worker.reached_soft_memory_limit worker mem);
    (split; [done|]); repeat split; intros; simpl; rewrite ?emit_emit;
    try done;
    match goal with
    | H1 : Qlt ?a ?b, H2 : Qle ?b ?a |- _ => exfalso; exact (Qlt_not_le _ _ H1 H2)
    end.
Qed.

Lemma C3_memory_thresholds_witness :
  get_memory (Manager.os state_running_child) 7
  = (OS.Ok (Qmake 262144000 1048576), Manager.os state_running_child)
  /\ Manager.slot world_first_fork_fails 0 default_worker state_running_child
     = Manager.Next
         (Manager.emit state_running_child [EvKill 7 SIGTERM; EvLog (ReachesSoft 7)]).
Proof.
  destruct (C3_memory_thresholds world_first_fork_fails 0 default_worker
              state_running_child 7 262144000 eq_refl eq_refl)
    as (H1 & _ & H3 & _).
  split; [exact H1|]. apply H3; unfold Qlt, Qle; simpl; lia.
Defined.

(** *** C5 *)

(** C5, as stated, fails: the liveness test of the pass is
    [psutil.pid_exists] alone, which says yes for the zombie; the pass
    does not fork, and the slot keeps pid 7.  The reap happens afterwards,
    inside [get_memory]. *)
Lemma C5_zombie_counterexample :
  OS.pid_exists (Manager.os state_zombie_child) 7 = true
  /\ Manager.slot world_fork_ok 0 default_worker state_zombie_child
     = Manager.Next
         {| Manager.pids := {[ 0%nat := 7%positive ]}; Manager.os := ∅;
            Manager.fork_calls := 1; Manager.trace := [] |}.
Proof. split; reflexivity. Qed.

(** C5, amended. A slot whose recorded pid is an exited, unreaped child:
    on the pass that finds it, [psutil.pid_exists] still reports the pid,
    so nothing is forked and the slot keeps its pid; [get_memory] then
    reaps the child with its non-blocking [waitpid], and no signal is
    sent.  Once the pid is gone from the process table, the next look at
    the slot calls [fork] and records the new pid. *)
Theorem C5_zombie_reaped_then_respawned
    (w : Manager.World) (i : nat) (worker : Worker.t) (st : Manager.State)
    (pid : positive) (status : Z) :
  Manager.pids st !! i = Some pid ->
  Manager.os st !! pid
    = Some {| OS.child := true; OS.state := OS.Zombie status |} ->
  OS.pid_exists (Manager.os st) pid = true
  /\ exists st1,
       Manager.slot w i worker st = Manager.Next st1
       /\ Manager.pids st1 = Manager.pids st
       /\ Manager.fork_calls st1 = Manager.fork_calls st
       /\ Manager.os st1 = delete pid (Manager.os st)
       /\ (forall e, In e (Manager.trace st1) ->
             In e (Manager.trace st) \/ e = EvLog (ReachesHard pid)
             \/ e = EvLog (ReachesSoft pid))
       /\ forall pid' rss,
            Manager.fork w (Manager.fork_calls st) = Manager.ForkParent pid' rss ->
            exists st2,
              Manager.slot w i worker st1 = Manager.Next st2
              /\ Manager.pids st2 = <[i := pid']> (Manager.pids st)
              /\ Manager.fork_calls st2 = S (Manager.fork_calls st).
Proof.
  intros Hp Ho. split; [by eapply pid_exists_true|].
  assert (Hgone : OS.pid_exists (delete pid (Manager.os st)) pid = false).
  { apply pid_exists_false, lookup_delete_eq. }
  assert (Hnext : forall st1,
            Manager.pids st1 = Manager.pids st ->
            Manager.fork_calls st1 = Manager.fork_calls st ->
            Manager.os st1 = delete pid (Manager.os st) ->
            forall pid' rss,
              Manager.fork w (Manager.fork_calls st) = Manager.ForkParent pid' rss ->
              exists st2,
                Manager.slot w i worker st1 = Manager.Next st2
                /\ Manager.pids st2 = <[i := pid']> (Manager.pids st)
                /\ Manager.fork_calls st2 = S (Manager.fork_calls st)).
  { intros st1 H1 H2 H3 pid' rss Hf. unfold Manager.slot.
    rewrite H1, Hp, H3, Hgone. unfold Manager.create. simpl.
    rewrite H2, Hf. eexists. split; [reflexivity|]. simpl. by rewrite H1. }
  unfold Manager.slot. rewrite Hp, (pid_exists_true _ _ _ Ho).
  unfold Manager.inspect. rewrite get_memory_cases, Ho.
  rewrite !kill_child_gone by done.
  destruct (Worker.reached_hard_memory_limit worker (Qmake 0 1));
    [|destruct (Worker.reached_soft_memory_limit worker (Qmake 0 1))];
    eexists; (split; [reflexivity|]);
    (split; [done|]); (split; [done|]); (split; [done|]);
    (split; [|by apply Hnext]);
    intros e He; simpl in He; rewrite ?in_app_iff in He; simpl in He;
    intuition (subst; tauto).
Qed.

Lemma C5_zombie_reaped_then_respawned_witness :
  OS.pid_exists (Manager.os state_zombie_child) 7 = true
  /\ exists st1,
       Manager.slot world_fork_ok 0 default_worker state_zombie_child = Manager.Next st1
       /\ Manager.pids st1 = Manager.pids state_zombie_child
       /\ Manager.fork_calls st1 = Manager.fork_calls state_zombie_child
       /\ Manager.os st1 = delete 7%positive (Manager.os state_zombie_child)
       /\ (forall e, In e (Manager.trace st1) ->
             In e (Manager.trace state_zombie_child) \/ e = EvLog (ReachesHard 7)
             \/ e = EvLog (ReachesSoft 7))
       /\ forall pid' rss,
            Manager.fork world_fork_ok (Manager.fork_calls state_zombie_child)
            = Manager.ForkParent pid' rss ->
            exists st2,
              Manager.slot world_fork_ok 0 default_worker st1 = Manager.Next st2
              /\ Manager.pids st2 = <[0%nat := pid']> (Manager.pids state_zombie_child)
              /\ Manager.fork_calls st2 = S (Manager.fork_calls state_zombie_child).
Proof.
  apply (C5_zombie_reaped_then_respawned world_fork_ok 0 default_worker state_zombie_child 7 0);
    reflexivity.
Defined.

(** *** C6 *)

(** C6, as stated, fails: for a pid that has already been reaped, and for
    a process that is not a child of the caller, [os.waitpid] raises and
    [get_memory] lets the error through instead of returning 0. *)
Lemma C6_get_memory_counterexample :
  get_memory table_without_children 7 = (OS.Raise ChildProcessError, table_without_children)
  /\ get_memory table_without_children 9 = (OS.Raise ChildProcessError, table_without_children).
Proof. split; reflexivity. Qed.

(** C6, amended. [get_memory pid] returns the resident size in MB for a
    running child of the caller, returns 0 for an exited child that has not
    been waited for (reaping it), and raises the error of [os.waitpid] for
    every other pid; when that happens in a pass of [Manager.run], for the
    pid on record for a slot, the error is caught there and logged with
    [log.info], and the pass goes on with records and process table as
    they were. *)
Theorem C6_get_memory_by_state
    (os : gmap positive OS.Proc) (pid : positive)
    (w : Manager.World) (i : nat) (worker : Worker.t) (st : Manager.State) :
  match os !! pid with
  | Some {| OS.child := true; OS.state := OS.Running rss |} =>
      get_memory os pid = (OS.Ok (Qmake (Z.of_N rss) 1048576), os)
  | Some {| OS.child := true; OS.state := OS.Zombie _ |} =>
      get_memory os pid = (OS.Ok (Qmake 0 1), delete pid os)
  | _ => get_memory os pid = (OS.Raise ChildProcessError, os)
  end
  /\ (forall e,
        Manager.pids st !! i = Some pid ->
        OS.pid_exists (Manager.os st) pid = true ->
        (get_memory (Manager.os st) pid).1 = OS.Raise e ->
        Manager.slot w i worker st
        = Manager.Next (Manager.emit st [EvLog (LogInfoException e)])).
Proof.
  split.
  - rewrite get_memory_cases. by destruct (os !! pid) as [[[] []]|].
  - intros e Hp Hex. unfold Manager.slot. rewrite Hp, Hex.
    unfold Manager.inspect. rewrite get_memory_cases.
    destruct (Manager.os st !! pid) as [[[] []]|]; simpl; try done;
      intros [= <-]; simpl; by rewrite set_os_same.
Qed.

Lemma C6_get_memory_by_state_witness :
  Manager.slot world_fork_ok 1 default_worker state_foreign_pid
  = Manager.Next
      (Manager.emit state_foreign_pid
         [EvLog (LogInfoException ChildProcessError)]).
Proof.
  destruct (C6_get_memory_by_state (Manager.os state_foreign_pid) 9
              world_fork_ok 1 default_worker state_foreign_pid) as [_ H].
  apply H; reflexivity.
Defined.

(** *** C8 *)

(** C8. With an empty roster and a logger, [__init__] logs and raises
    [SystemExit(0)]; with an empty roster and [log = None] (the default) it
    never gets to [sys.exit]: the logging call itself fails with an
    AttributeError.  In neither case is a manager constructed. *)
Theorem C8_empty_roster
    (check_point : Z) (title : string) (wait_time : Z) (logger : string) :
  Manager.__init__ [] (Some logger) check_point title wait_time
  = (OS.Raise (SystemExit 0), [EvLog NoWorkers])
  /\ Manager.__init__ [] None check_point title wait_time
     = (OS.Raise AttributeError, []).
Proof. split; reflexivity. Qed.

(** * Further properties *)

(** ** The worker loop, whatever the unit of work does *)

(** The counter never runs ahead of the calls: whenever [start] ends, by
    return or by an escaping exception, the counter lies between 0 and the
    number of invocations of the unit of work. *)
Theorem start_count_le_calls
    (_id : nat) (log : option string) (max_requests : option Z) (soft hard : Q)
    (timeout check_point : option Z) (name : option string)
    (w : Worker.World) (fuel : nat) :
  match Worker.start fuel w
          (Worker.__init__ _id log max_requests soft hard timeout check_point
             name).1 with
  | Some r =>
      0 <= Worker.count (exit_self r)
           <= Z.of_nat (occurrences is_run (exit_trace r))
  | None => True
  end.
Proof.
  rewrite start_unfold.
  set (s0 := if Worker.pre_signal w then _ else _).
  assert (Hs0 : Worker.count s0.1 = 0 /\ occurrences is_run s0.2 = 0%nat).
  { subst s0. by destruct (Worker.pre_signal w). }
  destruct s0 as [self0 tr0]. simpl in *. destruct Hs0 as (Hc0 & Hr0).
  destruct (Worker._run fuel (Worker.passes w) 0 self0 tr0) as [r|] eqn:Hr;
    [|done].
  apply _run_count in Hr as (H1 & H2 & _).
  destruct r as [self' tr'|e self' tr']; simpl in *; [|lia].
  destruct (after_run_exit self' tr') as (-> & [->|(m & ->)]); [lia|].
  rewrite occurrences_app. lia.
Qed.

(** With a positive bound the counter never passes it, however [start]
    ends. *)
Theorem start_count_le_bound
    (_id : nat) (log : option string) (N : Z) (soft hard : Q)
    (timeout check_point : option Z) (name : option string)
    (w : Worker.World) (fuel : nat) :
  0 < N ->
  match Worker.start fuel w
          (Worker.__init__ _id log (Some N) soft hard timeout check_point
             name).1 with
  | Some r => Worker.count (exit_self r) <= N
  | None => True
  end.
Proof.
  intros HN. rewrite start_unfold.
  set (s0 := if Worker.pre_signal w then _ else _).
  assert (Hs0 : Worker.count s0.1 = 0 /\ Worker.max_requests s0.1 = Some N).
  { subst s0. by destruct (Worker.pre_signal w). }
  destruct s0 as [self0 tr0]. simpl in *. destruct Hs0 as (Hc0 & Hm0).
  destruct (Worker._run fuel (Worker.passes w) 0 self0 tr0) as [r|] eqn:Hr;
    [|done].
  apply _run_count in Hr as (_ & _ & H3).
  specialize (H3 N Hm0 ltac:(lia) ltac:(lia)).
  destruct r as [self' tr'|e self' tr']; simpl in *; [|done].
  by destruct (after_run_exit self' tr') as (-> & _).
Qed.

Lemma start_count_le_bound_witness :
  exists r,
    Worker.start 7 world_returning_true
      (Worker.__init__ 1 None (Some 5) (Qmake 200 1) (Qmake 300 1) None
         None None).1 = Some r
    /\ Worker.count (exit_self r) = 5
    /\ Worker.count (exit_self r) <= 5.
Proof.
  eexists. split; [reflexivity|]. split; [reflexivity|].
  exact (start_count_le_bound 1 None 5 (Qmake 200 1) (Qmake 300 1) None None
           None world_returning_true 7 ltac:(lia)).
Defined.

(** Whenever [_run] returns, one of three things holds: [is_exit] is
    'signal', [is_exit] is 'timeout', or [is_exit] is unset and the counter
    has reached a truthy bound. *)
Theorem _run_exit_reasons
    (fuel : nat) (env : nat -> Worker.Pass) (k : nat) (self : Worker.t)
    (tr : list Event) (self' : Worker.t) (tr' : list Event) :
  Worker._run fuel env k self tr = Some (Worker.Returned self' tr') ->
  Worker.is_exit self' = Some Worker.signal
  \/ Worker.is_exit self' = Some Worker.timeout_flag
  \/ (Worker.is_exit self' = None
      /\ truthy (Worker.max_requests self) = true
      /\ value (Worker.max_requests self) <= Worker.count self').
Proof.
  intros Hr.
  pose proof (_run_returned_stops _ _ _ _ _ _ _ Hr) as Hl.
  pose proof (_run_calls _ _ _ _ _ _ _ Hr) as (Hm & _).
  unfold Worker.loop_cond in Hl. rewrite Hm in Hl.
  destruct (Worker.is_exit self') as [[]|]; [by left | right; by left |].
  right. right. simpl in Hl. rewrite andb_true_r in Hl.
  destruct (truthy (Worker.max_requests self)); simpl in Hl; [|done].
  apply Z.ltb_ge in Hl. done.
Qed.

Lemma _run_exit_reasons_witness :
  Worker.is_exit (Worker.set_count default_worker 2) = Some Worker.signal
  \/ Worker.is_exit (Worker.set_count default_worker 2)
     = Some Worker.timeout_flag
  \/ (Worker.is_exit (Worker.set_count default_worker 2) = None
      /\ truthy (Worker.max_requests default_worker) = true
      /\ value (Worker.max_requests default_worker)
         <= Worker.count (Worker.set_count default_worker 2)).
Proof.
  apply (_run_exit_reasons 3 (Worker.passes world_returning_true) 0
           default_worker [] (Worker.set_count default_worker 2)
           [EvRun; EvRun]).
  reflexivity.
Defined.

(** The alarm is handled cleanly: in every trace [start] ends with, no
    alarm is armed while another is pending, no pause begins while one is
    pending, and none is pending at the end, on every exit path. *)
Theorem start_alarm_disarmed
    (fuel : nat) (w : Worker.World) (self : Worker.t) :
  match Worker.start fuel w self with
  | Some r => alarm_scan false (exit_trace r) = Some false
  | None => True
  end.
Proof.
  rewrite start_unfold.
  set (s0 := if Worker.pre_signal w then _ else _).
  assert (Hs0 : alarm_scan false s0.2 = Some false).
  { subst s0. by destruct (Worker.pre_signal w). }
  destruct s0 as [self0 tr0]. simpl in *.
  destruct (Worker._run fuel (Worker.passes w) 0 self0 tr0) as [r|] eqn:Hr;
    [|done].
  apply _run_alarm in Hr; [|done].
  destruct r as [self' tr'|e self' tr']; simpl in *; [|done].
  destruct (after_run_exit self' tr') as (_ & [->|(m & ->)]); [done|].
  by rewrite alarm_scan_app, Hr.
Qed.

(** ** Signals, degenerate bounds and escaping exceptions *)

(** A signal that arrives after the handlers are installed and before the
    first loop test stops the worker before any work: [start] returns with
    [is_exit = 'signal'] and the unit of work is never called. *)
Theorem start_signal_before_loop
    (_id : nat) (log : option string) (max_requests : option Z) (soft hard : Q)
    (timeout check_point : option Z) (name : option string)
    (w : Worker.World) (fuel : nat) :
  Worker.pre_signal w = true ->
  Worker.start (S fuel) w
    (Worker.__init__ _id log max_requests soft hard timeout check_point name).1
  = Some (Worker.Returned
            (Worker.set_is_exit
               (Worker.__init__ _id log max_requests soft hard timeout
                  check_point name).1 (Some Worker.signal))
            [EvLog Creating; EvLog ReceivedSignal; EvLog CancelledBySignal]).
Proof.
  intros Hpre. unfold Worker.start. rewrite Hpre. cbn [Worker._run].
  unfold Worker.signal_handler.
  by rewrite (loop_cond_exiting _ Worker.signal).
Qed.

Lemma start_signal_before_loop_witness :
  Worker.start 1 world_early_signal default_worker
  = Some (Worker.Returned
            (Worker.set_is_exit default_worker (Some Worker.signal))
            [EvLog Creating; EvLog ReceivedSignal; EvLog CancelledBySignal]).
Proof.
  apply (start_signal_before_loop 1 None (Some 2) (Qmake 200 1) (Qmake 300 1)
           None None None world_early_signal 0).
  reflexivity.
Defined.

(** A signal during a pass lets that pass finish and prevents the next
    one: when the call of the signalled pass returns, or fails with an
    ordinary error, in time, [_run] returns right after it with
    [is_exit = 'signal'], the call counted if it returned a truthy value. *)
Theorem signal_finishes_current_pass
    (fuel : nat) (env : nat -> Worker.Pass) (k : nat) (self : Worker.t)
    (tr : list Event) :
  Worker.loop_cond self = true ->
  Worker.signalled (env k) = true ->
  in_time self (env k) ->
  match Worker.outcome (env k) with
  | Worker.Returns _ => True
  | Worker.Raises e => is_Exception e = true /\ is_TimeoutException e = false
  end ->
  exists self' tr',
    Worker._run (S (S fuel)) env k self tr = Some (Worker.Returned self' tr')
    /\ Worker.is_exit self' = Some Worker.signal
    /\ Worker.count self'
       = Worker.count self
         + match Worker.outcome (env k) with
           | Worker.Returns true => 1
           | _ => 0
           end
    /\ occurrences is_run tr' = S (occurrences is_run tr).
Proof.
  intros Hc Hs Hi Ho.
  destruct (_run_signalled_pass fuel env k self tr Hc Hs Hi Ho)
    as (self' & evs & Hrun & He & _ & _ & Hcnt & Hr & _).
  exists self', (tr ++ evs). repeat split; try done.
  rewrite occurrences_app. lia.
Qed.

Lemma signal_finishes_current_pass_witness :
  exists self' tr',
    Worker._run 2 (Worker.passes world_signal_at_pass_1) 1
      (Worker.set_count paused_worker 1) [EvRun]
    = Some (Worker.Returned self' tr')
    /\ Worker.is_exit self' = Some Worker.signal
    /\ Worker.count self'
       = Worker.count (Worker.set_count paused_worker 1)
         + match Worker.outcome (Worker.passes world_signal_at_pass_1 1) with
           | Worker.Returns true => 1
           | _ => 0
           end
    /\ occurrences is_run tr' = S (occurrences is_run [EvRun]).
Proof.
  apply (signal_finishes_current_pass 0 (Worker.passes world_signal_at_pass_1) 1
           (Worker.set_count paused_worker 1) [EvRun]);
    [reflexivity | reflexivity | | exact I].
  intros _. split; [reflexivity|]. by vm_compute.
Defined.

(** A negative bound forbids the first pass: [start] returns at once,
    without calling the unit of work, and reports the bound as reached. *)
Theorem start_negative_bound
    (_id : nat) (log : option string) (N : Z) (soft hard : Q)
    (timeout check_point : option Z) (name : option string)
    (w : Worker.World) (fuel : nat) :
  N < 0 ->
  Worker.pre_signal w = false ->
  Worker.start (S fuel) w
    (Worker.__init__ _id log (Some N) soft hard timeout check_point name).1
  = Some (Worker.Returned
            (Worker.__init__ _id log (Some N) soft hard timeout check_point
               name).1
            [EvLog Creating; EvLog (CancelledByMaxRequests N)]).
Proof.
  intros HN Hpre. unfold Worker.start. rewrite Hpre. simpl.
  unfold Worker.loop_cond. simpl.
  destruct (Z.eqb_spec N 0); [lia|]. simpl.
  replace (0 <? N) with false by (symmetry; apply Z.ltb_ge; lia).
  reflexivity.
Qed.

Lemma start_negative_bound_witness :
  Worker.start 1 world_returning_true
    (Worker.__init__ 1 None (Some (-1)) (Qmake 200 1) (Qmake 300 1) None None
       None).1
  = Some (Worker.Returned
            (Worker.__init__ 1 None (Some (-1)) (Qmake 200 1) (Qmake 300 1)
               None None None).1
            [EvLog Creating; EvLog (CancelledByMaxRequests (-1))]).
Proof. apply start_negative_bound; [lia | reflexivity]. Defined.

(** A unit of work that raises TimeoutException by itself, in a worker
    constructed without a timeout: the first such call ends the loop with
    [is_exit = 'timeout'] like an expired deadline, and [after_run] then
    fails on formatting the missing timeout, so that [start] ends with a
    TypeError instead of returning. *)
Theorem start_unit_raises_timeout_without_deadline
    (_id : nat) (log : option string) (max_requests : option Z) (soft hard : Q)
    (check_point : option Z) (name : option string)
    (w : Worker.World) (fuel : nat) :
  truthy max_requests = false \/ 0 < value max_requests ->
  Worker.pre_signal w = false ->
  Worker.outcome (Worker.passes w 0) = Worker.Raises TimeoutException ->
  exists self' tr,
    Worker.start (S fuel) w
      (Worker.__init__ _id log max_requests soft hard None check_point name).1
    = Some (Worker.Propagated TypeError self' tr)
    /\ Worker.is_exit self' = Some Worker.timeout_flag
    /\ Worker.count self' = 0
    /\ occurrences is_run tr = 1%nat.
Proof.
  intros Hm Hpre Ho. unfold Worker.start, Worker.__init__.
  rewrite Hpre. cbn [fst Worker._run].
  rewrite loop_cond_fresh by done.
  unfold Worker.body, Worker.call, Worker.hears, Worker.signal_handler.
  cbn [Worker.timeout truthy]. rewrite Ho.
  destruct (Worker.signalled (Worker.passes w 0)); simpl;
    eexists _, _; (split; [reflexivity|]); repeat split.
Qed.

Lemma start_unit_raises_timeout_without_deadline_witness :
  exists self' tr,
    Worker.start 1 world_raises_timeout default_worker
    = Some (Worker.Propagated TypeError self' tr)
    /\ Worker.is_exit self' = Some Worker.timeout_flag
    /\ Worker.count self' = 0
    /\ occurrences is_run tr = 1%nat.
Proof.
  apply (start_unit_raises_timeout_without_deadline 1 None (Some 2)
           (Qmake 200 1) (Qmake 300 1) None None world_raises_timeout 0);
    [right; simpl; lia | reflexivity | reflexivity].
Defined.

(** The exit status of a child says nothing: when the unit of work ends
    the process on its first call with [sys.exit(c)] (the alarm, if one is
    set, having been armed and not firing), the SystemExit leaves [_run]
    and [start] unlogged, and the [finally: sys.exit(0)] of the child
    branch replaces it, so the child exits with status 0 whatever [c]
    is. *)
Theorem child_main_masks_sys_exit
    (_id : nat) (log : option string) (max_requests : option Z) (soft hard : Q)
    (timeout check_point : option Z) (name : option string)
    (cw : Worker.World) (fuel : nat) (c : Z) :
  truthy max_requests = false \/ 0 < value max_requests ->
  Worker.pre_signal cw = false ->
  Worker.outcome (Worker.passes cw 0) = Worker.Raises (SystemExit c) ->
  (truthy timeout = true ->
   Timeout.fits_int (value timeout) = true
   /\ Worker.duration (Worker.passes cw 0) <= Timeout.seconds (value timeout)) ->
  exists tr,
    Manager.child_main (S fuel) cw
      (Worker.__init__ _id log max_requests soft hard timeout check_point
         name).1
    = Some (0, tr)
    /\ occurrences is_run tr = 1%nat
    /\ occurrences is_log_exception tr = 0%nat.
Proof.
  intros Hm Hpre Ho Hi. unfold Manager.child_main, Worker.start.
  rewrite Hpre. unfold Worker.__init__. cbn [fst Worker._run].
  rewrite loop_cond_fresh by done.
  set (self := Worker.mk _ _ _ _ _ _ _ _ _).
  destruct (call_in_time self (Worker.passes cw 0) (Worker.init self []) Hi)
    as (evs & Hc & _ & Hl & Hr).
  unfold Worker.body. rewrite Hc, Ho. unfold Worker.handle.
  cbn [is_TimeoutException is_Exception]. cbv beta iota.
  eexists. split; [reflexivity|].
  rewrite !occurrences_app, Hr, Hl. by unfold Worker.init, occurrences.
Qed.

Lemma child_main_masks_sys_exit_witness :
  exists tr,
    Manager.child_main 1 world_sys_exit default_worker = Some (0, tr)
    /\ occurrences is_run tr = 1%nat
    /\ occurrences is_log_exception tr = 0%nat.
Proof.
  apply (child_main_masks_sys_exit 1 None (Some 2) (Qmake 200 1) (Qmake 300 1)
           None None None world_sys_exit 0 3);
    [right; simpl; lia | reflexivity | reflexivity | discriminate].
Defined.

(** ** get_memory and the process table *)

(** [get_memory] leaves every other entry of the process table alone. *)
Theorem get_memory_frame
    (os : gmap positive OS.Proc) (pid q : positive) :
  q <> pid -> (get_memory os pid).2 !! q = os !! q.
Proof.
  intros Hq. rewrite get_memory_cases.
  destruct (os !! pid) as [[[] []]|]; simpl; try done.
  by rewrite lookup_delete_ne.
Qed.

Lemma get_memory_frame_witness :
  (get_memory (Manager.os state_foreign_pid) 7).2 !! 9%positive
  = Manager.os state_foreign_pid !! 9%positive.
Proof. apply get_memory_frame. discriminate. Defined.

(** An exited child is reported once: the first [get_memory] returns 0 and
    takes the child out of the process table, a second one for the same
    pid raises. *)
Theorem get_memory_reaps_once
    (os : gmap positive OS.Proc) (pid : positive) (status : Z) :
  os !! pid = Some {| OS.child := true; OS.state := OS.Zombie status |} ->
  get_memory os pid = (OS.Ok (Qmake 0 1), delete pid os)
  /\ get_memory (delete pid os) pid
     = (OS.Raise ChildProcessError, delete pid os).
Proof.
  intros Ho. rewrite !get_memory_cases, Ho, lookup_delete_eq. done.
Qed.

Lemma get_memory_reaps_once_witness :
  get_memory (Manager.os state_zombie_child) 7
  = (OS.Ok (Qmake 0 1), delete 7%positive (Manager.os state_zombie_child))
  /\ get_memory (delete 7%positive (Manager.os state_zombie_child)) 7
     = (OS.Raise ChildProcessError,
        delete 7%positive (Manager.os state_zombie_child)).
Proof. apply (get_memory_reaps_once _ 7 0). reflexivity. Defined.

(** ** One slot of a supervisory pass *)
Section SlotSteps.
Import Manager.

(** A first pass over empty records, every [fork] succeeding. *)
Lemma for_slots_fill w ws : forall start st,
  (forall j, (start <= j)%nat -> pids st !! j = None) ->
  (forall n, (n < length ws)%nat ->
     exists pid rss, fork w (fork_calls st + n)%nat = ForkParent pid rss) ->
  exists st',
    for_slots w (enumerate_from start ws) st = Next st'
    /\ fork_calls st' = (fork_calls st + length ws)%nat
    /\ (forall n, (n < length ws)%nat ->
          exists pid rss,
            fork w (fork_calls st + n)%nat = ForkParent pid rss
            /\ pids st' !! (start + n)%nat = Some pid)
    /\ (forall j, (start + length ws <= j)%nat -> pids st' !! j = None)
    /\ (forall j, (j < start)%nat -> pids st' !! j = pids st !! j).
Proof.
  induction ws as [|worker ws IH]; intros start st Hnone Hfork; simpl.
  - exists st. split; [done|]. split; [lia|]. split; [intros; lia|].
    split; [|done]. intros j Hj. apply Hnone. lia.
  - unfold slot. rewrite Hnone by lia.
    destruct (Hfork 0%nat ltac:(simpl; lia)) as (pid & rss & Hf).
    rewrite Nat.add_0_r in Hf.
    pose proof (create_cases w start st) as Hc.
    destruct (create w start st) as [st1|j st1|e1 st1];
      [|destruct Hc as (_ & Hc & _); congruence
       |destruct Hc as (_ & Hc & _); congruence].
    destruct Hc as (pid1 & rss1 & Hf1 & Hp1 & _ & Hfc1 & _).
    assert (pid1 = pid) by congruence. subst pid1.
    destruct (IH (S start) st1) as (st' & Hrun & Hfc & Hfilled & Hrest & Hkeep).
    { intros j Hj. rewrite Hp1, lookup_insert_ne by lia. apply Hnone. lia. }
    { intros n Hn. rewrite Hfc1.
      replace (S (fork_calls st) + n)%nat with (fork_calls st + S n)%nat by lia.
      apply Hfork. simpl. lia. }
    exists st'. split; [done|]. split; [simpl; lia|]. split; [|split].
    + intros [|n] Hn.
      * exists pid, rss. rewrite !Nat.add_0_r. split; [done|].
        rewrite Hkeep by lia. by rewrite Hp1, lookup_insert_eq.
      * destruct (Hfilled n ltac:(simpl in Hn; lia)) as (p & r & Hfn & Hpn).
        exists p, r.
        replace (fork_calls st + S n)%nat with (fork_calls st1 + n)%nat by lia.
        replace (start + S n)%nat with (S start + n)%nat by lia. done.
    + intros j Hj. apply Hrest. simpl in Hj. lia.
    + intros j Hj. rewrite Hkeep by lia. rewrite Hp1.
      apply lookup_insert_ne. lia.
Qed.



Lemma kill_all_not_child w l : forall st i st',
  kill_all w l st <> InChild i st'.
Proof.
  induction l as [|[j pid] l IH]; intros st i st'; simpl; [done|].
  destruct (kill_child_cases w st pid SIGTERM)
    as [(-> & _)|[(-> & _)|(-> & _)]]; [apply IH | apply IH | done].
Qed.







End SlotSteps.

(** A slot step only ever writes its own entry of the pid records, and
    never clears an entry: the other slots keep what they had, and a slot
    with a pid on record still has one afterwards, however the step ends. *)
Theorem slot_keeps_other_slots
    (w : Manager.World) (i j : nat) (worker : Worker.t) (st : Manager.State) :
  (j <> i ->
   Manager.pids (step_state (Manager.slot w i worker st)) !! j
   = Manager.pids st !! j)
  /\ (is_Some (Manager.pids st !! i) ->
      is_Some (Manager.pids (step_state (Manager.slot w i worker st)) !! i)).
Proof.
  assert (Hcreate : forall st0,
            Manager.pids (step_state (Manager.create w i st0)) !! j
            = (if decide (i = j) then
                 Manager.pids (step_state (Manager.create w i st0)) !! j
               else Manager.pids st0 !! j)
            /\ (is_Some (Manager.pids st0 !! i) ->
                is_Some (Manager.pids (step_state (Manager.create w i st0)) !! i))).
  { intros st0. pose proof (create_cases w i st0) as Hc.
    destruct (Manager.create w i st0) as [st1|k st1|e st1]; simpl.
    - destruct Hc as (pid & rss & _ & -> & _). split.
      + destruct (decide (i = j)); [done|]. by rewrite lookup_insert_ne.
      + intros _. rewrite lookup_insert_eq. by eexists.
    - destruct Hc as (_ & _ & ->). by destruct (decide (i = j)).
    - destruct Hc as (_ & _ & ->). by destruct (decide (i = j)). }
  unfold Manager.slot.
  destruct (Manager.pids st !! i) as [pid|] eqn:Hp.
  - destruct (OS.pid_exists (Manager.os st) pid).
    + destruct (inspect_next w worker pid st) as (st1 & -> & Hp1 & _). simpl.
      rewrite Hp1, Hp. split; [done | by eexists].
    + destruct (Hcreate (Manager.emit st [EvLog (NotExisted pid)])) as (H1 & H2).
      simpl in H1, H2. split.
      * intros Hne. rewrite H1. by destruct (decide (i = j)).
      * intros _. apply H2. rewrite Hp. by eexists.
  - destruct (Hcreate st) as (H1 & H2). split.
    + intros Hne. rewrite H1. by destruct (decide (i = j)).
    + by intros [? ?].
Qed.

Lemma slot_keeps_other_slots_witness :
  Manager.pids (step_state (Manager.slot world_fork_ok 1 default_worker
                              state_dead_slot)) !! 0%nat
  = Manager.pids state_dead_slot !! 0%nat
  /\ is_Some (Manager.pids
                (step_state (Manager.slot world_fork_ok 0 default_worker
                               state_dead_slot)) !! 0%nat).
Proof.
  split.
  - apply (slot_keeps_other_slots world_fork_ok 1 0 default_worker
             state_dead_slot). discriminate.
  - apply (slot_keeps_other_slots world_fork_ok 0 0 default_worker
             state_dead_slot). by eexists.
Defined.

(** A dead slot is refilled in place: when the slot has no pid on record,
    or the recorded pid is gone from the process table, and [fork]
    succeeds, the new pid is recorded under the same index, the child is
    in the process table, and exactly one [fork] was made. *)
Theorem slot_respawns_dead_slot
    (w : Manager.World) (i : nat) (worker : Worker.t) (st : Manager.State)
    (pid : positive) (rss : N) :
  needs_spawn st i ->
  Manager.fork w (Manager.fork_calls st) = Manager.ForkParent pid rss ->
  exists st',
    Manager.slot w i worker st = Manager.Next st'
    /\ Manager.pids st' = <[i := pid]> (Manager.pids st)
    /\ Manager.os st'
       = <[pid := {| OS.child := true; OS.state := OS.Running rss |}]>
           (Manager.os st)
    /\ Manager.fork_calls st' = S (Manager.fork_calls st)
    /\ occurrences (fun e => match e with EvFork => true | _ => false end)
         (Manager.trace st')
       = S (occurrences (fun e => match e with EvFork => true | _ => false end)
              (Manager.trace st)).
Proof.
  intros [Hn|(old & Hp & He)] Hf; unfold Manager.slot, Manager.create.
  - rewrite Hn, Hf. eexists. split; [reflexivity|]. simpl.
    repeat split. rewrite occurrences_app. unfold occurrences. simpl. lia.
  - rewrite Hp, He. simpl. rewrite Hf. eexists. split; [reflexivity|]. simpl.
    repeat split. rewrite !occurrences_app. unfold occurrences. simpl. lia.
Qed.

Lemma slot_respawns_dead_slot_witness :
  exists st',
    Manager.slot world_fork_ok 0 default_worker state_dead_slot
    = Manager.Next st'
    /\ Manager.pids st' = <[0%nat := 8%positive]> (Manager.pids state_dead_slot)
    /\ Manager.os st'
       = <[8%positive := {| OS.child := true; OS.state := OS.Running 0 |}]>
           (Manager.os state_dead_slot)
    /\ Manager.fork_calls st' = S (Manager.fork_calls state_dead_slot)
    /\ occurrences (fun e => match e with EvFork => true | _ => false end)
         (Manager.trace st')
       = S (occurrences (fun e => match e with EvFork => true | _ => false end)
              (Manager.trace state_dead_slot)).
Proof.
  apply (slot_respawns_dead_slot world_fork_ok 0 default_worker state_dead_slot
           8 0); [|reflexivity].
  right. exists 7%positive. split; reflexivity.
Defined.

(** At most one child per slot: while the recorded pid is still in the
    process table (running, exited but unreaped, or not even a child), the
    slot step does not call [fork] and leaves the pid records as they are. *)
Theorem slot_never_forks_over_existing_pid
    (w : Manager.World) (i : nat) (worker : Worker.t) (st : Manager.State)
    (pid : positive) :
  Manager.pids st !! i = Some pid ->
  OS.pid_exists (Manager.os st) pid = true ->
  exists st',
    Manager.slot w i worker st = Manager.Next st'
    /\ Manager.pids st' = Manager.pids st
    /\ Manager.fork_calls st' = Manager.fork_calls st.
Proof.
  intros Hp He. unfold Manager.slot. rewrite Hp, He.
  apply inspect_next.
Qed.

Lemma slot_never_forks_over_existing_pid_witness :
  exists st',
    Manager.slot world_fork_ok 1 default_worker state_foreign_pid
    = Manager.Next st'
    /\ Manager.pids st' = Manager.pids state_foreign_pid
    /\ Manager.fork_calls st' = Manager.fork_calls state_foreign_pid.
Proof.
  apply (slot_never_forks_over_existing_pid world_fork_ok 1 default_worker
           state_foreign_pid 9); reflexivity.
Defined.

(** An inspection error does not abort the pass: when the recorded pid
    belongs to a process that is not a child of the manager, the error of
    [get_memory] is logged with [log.info], no signal is sent and nothing
    else changes. *)
Theorem slot_logs_inspection_error
    (w : Manager.World) (i : nat) (worker : Worker.t) (st : Manager.State)
    (pid : positive) (state : OS.ProcState) :
  Manager.pids st !! i = Some pid ->
  Manager.os st !! pid = Some {| OS.child := false; OS.state := state |} ->
  Manager.slot w i worker st
  = Manager.Next (Manager.emit st [EvLog (LogInfoException ChildProcessError)]).
Proof.
  intros Hp Ho. unfold Manager.slot.
  rewrite Hp, (pid_exists_true _ _ _ Ho).
  unfold Manager.inspect. rewrite get_memory_cases, Ho. simpl.
  by rewrite set_os_same.
Qed.

Lemma slot_logs_inspection_error_witness :
  Manager.slot world_fork_ok 1 default_worker state_foreign_pid
  = Manager.Next
      (Manager.emit state_foreign_pid
         [EvLog (LogInfoException ChildProcessError)]).
Proof.
  apply (slot_logs_inspection_error world_fork_ok 1 default_worker
           state_foreign_pid 9 (OS.Running 4194304)); reflexivity.
Defined.

(** With the limits the wrong way round (hard at or below soft) a running
    child is never asked to stop gracefully: it is killed as soon as its
    memory reaches the hard limit and left alone below it. *)
Theorem slot_inverted_limits_never_sigterm
    (w : Manager.World) (i : nat) (worker : Worker.t) (st : Manager.State)
    (pid : positive) (rss : N) :
  Qle (Worker.hard_memory_limit worker) (Worker.soft_memory_limit worker) ->
  Manager.pids st !! i = Some pid ->
  Manager.os st !! pid
    = Some {| OS.child := true; OS.state := OS.Running rss |} ->
  Manager.slot w i worker st
  = Manager.Next
      (if Qle_bool (Worker.hard_memory_limit worker)
                   (Qmake (Z.of_N rss) 1048576)
       then Manager.emit st [EvLog (ReachesHard pid); EvKill pid SIGKILL]
       else st).
Proof.
  intros Hinv Hp Ho. unfold Manager.slot.
  rewrite Hp, (pid_exists_true _ _ _ Ho).
  unfold Manager.inspect. rewrite get_memory_cases, Ho, set_os_same.
  rewrite (kill_child_allowed w (Manager.emit st [EvLog (ReachesHard pid)])
             pid SIGKILL _ Ho) by by left.
  rewrite (kill_child_allowed w st pid SIGTERM _ Ho) by by left.
  unfold Worker.reached_hard_memory_limit, Worker.reached_soft_memory_limit.
  destruct (Qle_bool (Worker.hard_memory_limit worker) _) eqn:Hh.
  - simpl. by rewrite emit_emit.
  - destruct (Qle_bool (Worker.soft_memory_limit worker) _) eqn:Hs; [|done].
    apply Qle_bool_iff in Hs.
    assert (Hh' : Qle_bool (Worker.hard_memory_limit worker)
                    (Qmake (Z.of_N rss) 1048576) = true).
    { apply Qle_bool_iff. by eapply Qle_trans. }
    congruence.
Qed.

Lemma slot_inverted_limits_never_sigterm_witness :
  Manager.slot world_fork_ok 0 inverted_worker state_running_child
  = Manager.Next
      (if Qle_bool (Worker.hard_memory_limit inverted_worker)
                   (Qmake (Z.of_N 262144000) 1048576)
       then Manager.emit state_running_child
              [EvLog (ReachesHard 7); EvKill 7 SIGKILL]
       else state_running_child).
Proof.
  apply (slot_inverted_limits_never_sigterm world_fork_ok 0 inverted_worker
           state_running_child 7 262144000); [|reflexivity|reflexivity].
  unfold Qle. simpl. lia.
Defined.

(** ** The polling loop as a whole *)


(** The first pass of [run] fills the whole roster: starting from empty
    records, when the first [length workers] calls of [fork] succeed, the
    pass makes exactly that many calls and records the pid of the [i]-th
    call under index [i]. *)
Theorem first_pass_fills_roster
    (w : Manager.World) (self : Manager.t)
    (os0 : gmap positive OS.Proc) (tr : list Event) :
  (forall n, (n < length (Manager.workers self))%nat ->
     exists pid rss, Manager.fork w n = Manager.ForkParent pid rss) ->
  exists st',
    Manager.pass w self
      {| Manager.pids := ∅; Manager.os := os0; Manager.fork_calls := 0;
         Manager.trace := tr |}
    = Manager.Next st'
    /\ Manager.fork_calls st' = length (Manager.workers self)
    /\ (forall i, (i < length (Manager.workers self))%nat ->
          exists pid rss,
            Manager.fork w i = Manager.ForkParent pid rss
            /\ Manager.pids st' !! i = Some pid)
    /\ (forall i, (length (Manager.workers self) <= i)%nat ->
          Manager.pids st' !! i = None).
Proof.
  intros Hfork. unfold Manager.pass, Manager.enumerate.
  destruct (for_slots_fill w (Manager.workers self) 0
              {| Manager.pids := ∅; Manager.os := os0; Manager.fork_calls := 0;
                 Manager.trace := tr |})
    as (st' & Hrun & Hfc & Hfilled & Hrest & _).
  { intros j _. apply lookup_empty. }
  { intros n Hn. simpl. by apply Hfork. }
  exists st'. split; [done|]. split; [done|]. split; [|done].
  intros i Hi. apply (Hfilled i Hi).
Qed.

Lemma first_pass_fills_roster_witness :
  exists st',
    Manager.pass world_forks_then_signal default_manager
      {| Manager.pids := ∅; Manager.os := ∅; Manager.fork_calls := 0;
         Manager.trace := [] |}
    = Manager.Next st'
    /\ Manager.fork_calls st' = length (Manager.workers default_manager)
    /\ (forall i, (i < length (Manager.workers default_manager))%nat ->
          exists pid rss,
            Manager.fork world_forks_then_signal i = Manager.ForkParent pid rss
            /\ Manager.pids st' !! i = Some pid)
    /\ (forall i, (length (Manager.workers default_manager) <= i)%nat ->
          Manager.pids st' !! i = None).
Proof.
  apply first_pass_fills_roster.
  intros n _. exists (Pos.of_nat (n + 10)), 0%N. reflexivity.
Defined.






